(** * times-excel-reader: mapping application, DD serialization and
      ground-truth comparison

    A shallow embedding of [src/times_reader/__main__.py]:
    [produce_times_tables] (the canonicalizer), the two row converters of
    [write_dd_files] together with its routing loop, [compare] (the
    verifier), and the helpers [strip_filename_prefix],
    [write_csv_tables] and [read_csv_tables].

    Modelling conventions.
    - A pandas [DataFrame] is a header of column labels plus a row-major
      grid of cells, as [df.columns] and [df.to_numpy().tolist()] show it.
      Column labels are unique (spec section 3); the row index is not
      modelled, since every Series assigned into a frame is taken from the
      same frame, so [reset_index] is the identity here.
    - A cell is a Python [str] or the missing value ([NaN]); columns have
      object dtype.
    - A Python [dict] is an association list in insertion order; lookups
      return the first binding and [dict_set] updates in place or appends.
      A Python [set] is a [gset].
    - [print] appends a structured event to a log; an uncaught exception
      ends the computation with [Raise].
    - [str.lower] is modelled on ASCII letters; other bytes are unchanged.
      One character of a [string] stands for one character of a Python
      [str].
    - The CSV helpers do not model the file system: the listing of the
      directory is an argument, [write_csv_tables] yields the calls it
      makes, and the CSV reader is a parameter. *)

From Stdlib Require Import Ascii String QArith.
From stdpp Require Import base gmap sets list strings sorting.

Open Scope string_scope.
Open Scope list_scope.

(** ** Cells and frames *)

Inductive cell :=
  | Str (s : string)
  | NaN.

#[global] Instance cell_eq_dec : EqDecision cell.
Proof. solve_decision. Defined.

#[global] Instance cell_countable : Countable cell :=
  inj_countable'
    (λ c, match c with Str s => Some s | NaN => None end)
    (λ o, match o with Some s => Str s | None => NaN end)
    (λ c, match c with Str _ => eq_refl | NaN => eq_refl end).

Abbreviation row := (list cell).

Record DataFrame := mkDataFrame {
  columns : list string;
  values : list row
}.

#[global] Instance DataFrame_eq_dec : EqDecision DataFrame.
Proof. solve_decision. Defined.

(** [len(df)], [df.shape[0]] *)
Definition len (df : DataFrame) : nat := length (values df).

(** All rows are as wide as the header, and labels are unique. *)
Definition frame_wf (df : DataFrame) : Prop :=
  NoDup (columns df) ∧ Forall (λ r : row, length r = length (columns df)) (values df).

(** ** Python dictionaries in insertion order *)

Section dict.
Context {V : Type}.

Fixpoint dict_get (d : list (string * V)) (k : string) : option V :=
  match d with
  | [] => None
  | (k', v) :: d => if decide (k' = k) then Some v else dict_get d k
  end.

(** [d[k] = v] *)
Fixpoint dict_set (d : list (string * V)) (k : string) (v : V) : list (string * V) :=
  match d with
  | [] => [(k, v)]
  | (k', v') :: d => if decide (k' = k) then (k, v) :: d else (k', v') :: dict_set d k v
  end.

(** [set(d.keys())] *)
Definition dict_keys (d : list (string * V)) : gset string := list_to_set d.*1.

(** A Python dict holds each key once. *)
Definition dict_wf (d : list (string * V)) : Prop := NoDup d.*1.
End dict.

Abbreviation TableStore := (list (string * DataFrame)).

(** ** Configuration (the fields of [datatypes.TimesXlMap] and
    [datatypes.Config] that the three functions read) *)

Record TimesXlMap := mkTimesXlMap {
  times_name : string;
  times_cols : list string;
  xl_name : string;
  xl_cols : list string;
  col_map : list (string * string);
  filter_rows : list (string * string)
}.

Record Config := mkConfig {
  times_xl_maps : list TimesXlMap;
  dd_table_order : list string
}.

(** ** Output and exceptions *)

Inductive event :=
  (* produce_times_tables *)
  | Incoming (ntables nrows : nat)
  | NoInputTable (times xl : string)
  | NoFilterColumn (times xl filter_col : string)
  | MissingColumns (times xl : string) (missing : gset string)
  | UnusedTables (n : nat) (names : list string)
  (* write_dd_files *)
  | OpenFile (fname : string)
  | Write (fname : string) (text : string)
  (* compare *)
  | GroundTruthInfo (ntables nrows : nat)
  | MissingTables (n : nat) (names : list (string * nat))
  | AdditionalTables (n : nat) (names : list (string * nat))
  | HeaderIncorrect (table : string) (data_cols gt_cols : list string)
  | RowsDiffer (table : string) (nrows gt_nrows nadditional nmissing : nat)
  | WroteCsv (fname : string) (rows : gset row)
  | Summary (ratio : Q) (correct gt additional : nat).

Inductive exn :=
  | KeyError (labels : list string)
  | KeyErrorNoValue (tablename : string)
  | IndexError
  | ZeroDivisionError.

Inductive outcome (A : Type) :=
  | Ret (a : A)
  | Raise (e : exn).
Arguments Ret {A} a.
Arguments Raise {A} e.

(** The log printed so far, and how the computation ended. *)
Definition Py (A : Type) : Type := list event * outcome A.

#[global] Instance Py_ret : MRet Py := λ A a, ([], Ret a).
#[global] Instance Py_bind : MBind Py := λ A B f m,
  match m with
  | (l, Ret a) => let '(l', r) := f a in (l ++ l', r)
  | (l, Raise e) => (l, Raise e)
  end.

Definition print (e : event) : Py unit := ([e], Ret tt).
Definition raise {A} (e : exn) : Py A := ([], Raise e).

Fixpoint foldM {A B} (f : B → A → Py B) (l : list A) (b : B) : Py B :=
  match l with
  | [] => mret b
  | x :: l => b' ← f b x; foldM f l b'
  end.

(** [a / b] on two ints: the exact quotient, or [ZeroDivisionError] *)
Definition truediv (a b : nat) : Py Q :=
  if decide (b = 0) then raise ZeroDivisionError
  else mret (Z.of_nat a # Pos.of_nat b)%Q.

(** ** Strings *)

Definition ascii_lower (c : ascii) : ascii :=
  let n := nat_of_ascii c in
  if ((65 <=? n) && (n <=? 90))%nat then ascii_of_nat (n + 32) else c.

(** [s.lower()] on ASCII strings: the letters [A]-[Z] are folded and
    every other character is left as it is. Statements that depend on
    the folding are made for ASCII strings ([is_ascii]). *)
Fixpoint lower (s : string) : string :=
  match s with
  | EmptyString => EmptyString
  | String c s => String (ascii_lower c) (lower s)
  end.

(** [s.split(".")[0]] *)
Fixpoint split_dot_head (s : string) : string :=
  match s with
  | EmptyString => EmptyString
  | String c s => if decide (c = "."%char) then EmptyString else String c (split_dot_head s)
  end.

(** [str(x)] of a cell *)
Definition str (c : cell) : string :=
  match c with
  | Str s => s
  | NaN => "nan"
  end.

(** ** Sorting: [sorted] is stable *)

Section sorted.
Context {A : Type} (le : A → A → bool).

Fixpoint sorted_insert (x : A) (l : list A) : list A :=
  match l with
  | [] => [x]
  | y :: l => if le x y then x :: y :: l else y :: sorted_insert x l
  end.

Definition sorted_by (l : list A) : list A := foldr sorted_insert [] l.
End sorted.

(** [sorted(xs)] on strings *)
Definition sorted_str : list string → list string := sorted_by String.leb.

(** ** The pandas operations used *)

Fixpoint select_mask {A} (mask : list bool) (l : list A) : list A :=
  match mask, l with
  | b :: mask, x :: l => if b then x :: select_mask mask l else select_mask mask l
  | _, _ => []
  end.

Definition col_index (c : string) (cols : list string) : option nat :=
  fst <$> list_find (λ x, x = c) cols.

Definition cell_at (i : nat) (r : row) : cell := default NaN (r !! i).

(** [df[c]] *)
Definition getitem (df : DataFrame) (c : string) : Py (list cell) :=
  match col_index c (columns df) with
  | Some i => mret (cell_at i <$> values df)
  | None => raise (KeyError [c])
  end.

(** [df[c] = s], where [s] is a column of [df] itself *)
Definition setitem (df : DataFrame) (c : string) (s : list cell) : DataFrame :=
  match col_index c (columns df) with
  | Some i =>
      {| columns := columns df;
         values := zip_with (λ (r : row) x, <[i:=x]> r) (values df) s |}
  | None =>
      {| columns := columns df ++ [c];
         values := zip_with (λ (r : row) x, r ++ [x]) (values df) s |}
  end.

(** [df.loc[i, :]] *)
Definition loc_rows (df : DataFrame) (i : list bool) : DataFrame :=
  {| columns := columns df; values := select_mask i (values df) |}.

(** [df.loc[i, cols]] *)
Definition loc (df : DataFrame) (i : list bool) (cols : list string) : Py DataFrame :=
  match filter (λ c, c ∉ columns df) cols with
  | [] =>
      let idx := omap (λ c, col_index c (columns df)) cols in
      mret {| columns := cols;
              values := (λ r : row, (λ j, cell_at j r) <$> idx) <$> select_mask i (values df) |}
  | missing => raise (KeyError missing)
  end.

(** [df.drop(columns=labels)] *)
Definition drop (df : DataFrame) (labels : list string) : DataFrame :=
  let keep := (λ c, bool_decide (c ∉ labels)) <$> columns df in
  {| columns := select_mask keep (columns df);
     values := select_mask keep <$> values df |}.

(** [df.drop_duplicates()]: the first occurrence of each row is kept *)
Fixpoint drop_duplicates_rows (l : list row) : list row :=
  match l with
  | [] => []
  | r :: l => r :: filter (λ x, x ≠ r) (drop_duplicates_rows l)
  end.

Definition drop_duplicates (df : DataFrame) : DataFrame :=
  {| columns := columns df; values := drop_duplicates_rows (values df) |}.

(** [.notna()] *)
Definition notna (c : cell) : bool :=
  match c with
  | NaN => false
  | Str _ => true
  end.

(** [c != s] *)
Definition cell_ne (s : string) (c : cell) : bool :=
  match c with
  | Str x => bool_decide (x ≠ s)
  | NaN => true
  end.

(** [(df != s).all(axis=1)] *)
Definition all_ne (s : string) (df : DataFrame) : list bool :=
  forallb (cell_ne s) <$> values df.

(** [.str.lower()] *)
Definition str_lower (c : cell) : cell :=
  match c with
  | Str s => Str (lower s)
  | NaN => NaN
  end.

(** [.isin(filter)] *)
Definition isin (filter : gset string) (c : cell) : bool :=
  match c with
  | Str s => bool_decide (s ∈ filter)
  | NaN => false
  end.

(** ** produce_times_tables *)

(** One round of the loop over [mapping.filter_rows.items()]. *)
Definition apply_filter (mapping : TimesXlMap) (df : DataFrame)
    (item : string * string) : Py DataFrame :=
  let '(filter_col, filter_val) := item in
  _ ← (if decide (filter_col ∈ columns df) then mret tt
       else print (NoFilterColumn (times_name mapping) (xl_name mapping) filter_col));
  let filter : gset string := {[ lower filter_val ]} in
  col ← getitem df filter_col;
  let i := (λ c, isin filter (str_lower c)) <$> col in
  mret (loc_rows df i).

(** [if "techgroup" in mapping.xl_cols: df["techgroup"] = df["techname"]] *)
Definition set_techgroup (mapping : TimesXlMap) (df : DataFrame) : Py DataFrame :=
  if decide ("techgroup" ∈ xl_cols mapping) then
    col ← getitem df "techname";
    mret (setitem df "techgroup" col)
  else mret df.

(** [df[times_col] = df[xl_col]] *)
Definition copy_column (df : DataFrame) (item : string * string) : Py DataFrame :=
  let '(times_col, xl_col) := item in
  col ← getitem df xl_col;
  mret (setitem df times_col col).

(** The row validity mask of lines 257-261. *)
Definition valid_rows (mapping : TimesXlMap) (df : DataFrame) : Py (list bool) :=
  match last (times_cols mapping) with
  | None => raise IndexError
  | Some value_col =>
      col ← getitem df value_col;
      mret (zip_with andb (zip_with andb (notna <$> col) (all_ne "None" df)) (all_ne "" df))
  end.

(** Lines 250-262: the else-branch up to the emptiness test. *)
Definition project_table (mapping : TimesXlMap) (df : DataFrame) : Py DataFrame :=
  df ← foldM copy_column (col_map mapping) df;
  let cols_to_drop := filter (λ x, x ∉ times_cols mapping) (columns df) in
  let df := drop df cols_to_drop in
  let df := drop_duplicates df in
  i ← valid_rows mapping df;
  loc df i (times_cols mapping).

(** Lines 226-240: the copy of the source table, filtered, with the
    technology group column set. *)
Definition filter_table (mapping : TimesXlMap) (src : DataFrame) : Py DataFrame :=
  df ← foldM (apply_filter mapping) (filter_rows mapping) src;
  set_techgroup mapping df.

(** The body of the loop over [config.times_xl_maps]; the state is
    [(result, used_tables)]. *)
Definition process_mapping (input : TableStore)
    (st : TableStore * gset string) (mapping : TimesXlMap)
    : Py (TableStore * gset string) :=
  let '(result, used_tables) := st in
  match dict_get input (xl_name mapping) with
  | None =>
      _ ← print (NoInputTable (times_name mapping) (xl_name mapping));
      mret (result, used_tables)
  | Some src =>
      let used_tables := used_tables ∪ {[ xl_name mapping ]} in
      df ← filter_table mapping src;
      if decide (Forall (λ c, c ∈ columns df) (xl_cols mapping)) then
        df ← project_table mapping df;
        if decide (len df = 0) then mret (result, used_tables)
        else mret (dict_set result (times_name mapping) df, used_tables)
      else
        let missing : gset string :=
          list_to_set (xl_cols mapping) ∖ list_to_set (columns df) in
        _ ← print (MissingColumns (times_name mapping) (xl_name mapping) missing);
        mret (result, used_tables)
  end.

Definition produce_times_tables (config : Config) (input : TableStore) : Py TableStore :=
  _ ← print (Incoming (length input) (sum_list (len <$> input.*2)));
  st ← foldM (process_mapping input) (times_xl_maps config) ([], ∅);
  let unused_tables := dict_keys input ∖ st.2 in
  _ ← (if decide (0 < size unused_tables)%nat
       then print (UnusedTables (size unused_tables) (sorted_str (elements unused_tables)))
       else mret tt);
  mret st.1.

(** ** write_dd_files *)

Definition nl : string := String (ascii_of_nat 10) EmptyString.

(** [(str(x) for k, x in row._asdict().items() if k != skip)], joined *)
Definition row_str (skip : string) (cols : list string) (r : row) : string :=
  String.concat "'.'" ((λ kx, str kx.2) <$> filter (λ kx, kx.1 ≠ skip) (zip cols r)).

(** [getattr(row, c)] for a column [c] of the frame *)
Definition row_attr (c : string) (cols : list string) (r : row) : cell :=
  from_option (λ i, cell_at i r) NaN (col_index c cols).

Definition convert_set (df : DataFrame) : list string :=
  let has_description := bool_decide ("TEXT" ∈ columns df) in
  (λ r : row,
     let row_str := row_str "TEXT" (columns df) r in
     let desc := if has_description
                 then " '" +:+ str (row_attr "TEXT" (columns df) r) +:+ "'"
                 else "" in
     "'" +:+ row_str +:+ "'" +:+ desc +:+ nl) <$> values df.

Definition convert_parameter (tablename : string) (df : DataFrame) : Py (list string) :=
  if decide ("VALUE" ∉ columns df) then raise (KeyErrorNoValue tablename)
  else
    mret ((λ r : row,
       let val := str (row_attr "VALUE" (columns df) r) in
       let row_str := row_str "VALUE" (columns df) r in
       if decide (row_str ≠ "") then "'" +:+ row_str +:+ "' " +:+ val +:+ nl
       else val +:+ nl) <$> values df).

(** [{m.times_name for m in config.times_xl_maps if "VALUE" not in m.col_map}] *)
Definition set_tables (config : Config) : gset string :=
  list_to_set (times_name <$>
    filter (λ m, "VALUE" ∉ (col_map m).*1) (times_xl_maps config)).

Definition tables_in_file (config : Config) : list (string * list string) :=
  [("ts.dd", ["ALL_TS"]);
   ("output.dd", filter (λ t, t ≠ "ALL_TS") (dd_table_order config))].

(** The body of the inner loop: one table block written to [fname]. *)
Definition write_table (tables : TableStore) (sets : gset string)
    (fname : string) (_ : unit) (tablename : string) : Py unit :=
  df ← from_option mret (raise (KeyError [tablename])) (dict_get tables tablename);
  lines ← (if decide (tablename ∈ sets) then
             _ ← print (Write fname ("SET " +:+ tablename +:+ nl +:+ "/" +:+ nl));
             mret (convert_set df)
           else
             _ ← print (Write fname ("PARAMETER" +:+ nl +:+ tablename +:+ " ' '/" +:+ nl));
             convert_parameter tablename df);
  _ ← print (Write fname (String.concat "" (sorted_str lines)));
  print (Write fname (nl +:+ "/;" +:+ nl)).

Definition write_file (tables : TableStore) (sets : gset string)
    (_ : unit) (item : string * list string) : Py unit :=
  let '(fname, tablenames) := item in
  _ ← print (OpenFile fname);
  foldM (write_table tables sets fname)
        (filter (λ t, is_Some (dict_get tables t)) tablenames) tt.

(** Files are named relative to [output_dir]; the removal of the [.dd]
    files of an earlier run is not modelled. *)
Definition write_dd_files (tables : TableStore) (config : Config) : Py unit :=
  let sets := set_tables config in
  foldM (write_file tables sets) (tables_in_file config) tt.

(** ** compare *)

(** [set(tuple(row) for row in df.to_numpy().tolist())] *)
Definition row_set (df : DataFrame) : gset row := list_to_set (values df).

(** [[f"{x} ({d[x].shape[0]})" for x in sorted(names)]]; every [x] is a key of [d] *)
Definition with_row_counts (d : TableStore) (names : gset string) : list (string * nat) :=
  (λ x, (x, from_option len 0 (dict_get d x))) <$> sorted_str (elements names).

(** The body of the loop over the ground-truth tables; the state is
    [(total_gt_rows, total_correct_rows, total_additional_rows)]. *)
Definition compare_table (data : TableStore) (st : nat * nat * nat)
    (item : string * DataFrame) : Py (nat * nat * nat) :=
  let '(total_gt_rows, total_correct_rows, total_additional_rows) := st in
  let '(table_name, gt_table) := item in
  let total_gt_rows := total_gt_rows + len gt_table in
  match dict_get data table_name with
  | None => mret (total_gt_rows, total_correct_rows, total_additional_rows)
  | Some data_table =>
      let transformed_gt_cols := split_dot_head <$> columns gt_table in
      let data_cols := columns data_table in
      if decide (transformed_gt_cols ≠ data_cols) then
        _ ← print (HeaderIncorrect table_name data_cols transformed_gt_cols);
        mret (total_gt_rows, total_correct_rows, total_additional_rows)
      else
        let gt_rows := row_set gt_table in
        let data_rows := row_set data_table in
        let total_correct_rows := total_correct_rows + size (gt_rows ∩ data_rows) in
        let additional := data_rows ∖ gt_rows in
        let total_additional_rows := total_additional_rows + size additional in
        let missing := gt_rows ∖ data_rows in
        _ ← (if decide (size additional ≠ 0 ∨ size missing ≠ 0)
             then print (RowsDiffer table_name (len data_table) (len gt_table)
                                    (size additional) (size missing))
             else mret tt);
        _ ← (if decide (size additional ≠ 0)
             then print (WroteCsv (table_name +:+ "_additional.csv") additional)
             else mret tt);
        _ ← (if decide (size missing ≠ 0)
             then print (WroteCsv (table_name +:+ "_missing.csv") missing)
             else mret tt);
        mret (total_gt_rows, total_correct_rows, total_additional_rows)
  end.

(** [sorted(ground_truth.items(), reverse=True, key=lambda t: len(t[1]))] *)
Definition by_len_desc (gt : TableStore) : TableStore :=
  sorted_by (λ a b, len b.2 <=? len a.2)%nat gt.

Definition compare (data ground_truth : TableStore) : Py unit :=
  _ ← print (GroundTruthInfo (length ground_truth) (sum_list (len <$> ground_truth.*2)));
  let missing := dict_keys ground_truth ∖ dict_keys data in
  _ ← (if decide (0 < size missing)%nat
       then print (MissingTables (size missing) (with_row_counts ground_truth missing))
       else mret tt);
  let additional_tables := dict_keys data ∖ dict_keys ground_truth in
  _ ← (if decide (0 < size additional_tables)%nat
       then print (AdditionalTables (size additional_tables)
                                    (with_row_counts data additional_tables))
       else mret tt);
  let total_additional_rows :=
    sum_list ((λ x, from_option len 0 (dict_get data x)) <$> elements additional_tables) in
  st ← foldM (compare_table data) (by_len_desc ground_truth) (0, 0, total_additional_rows);
  let '(total_gt_rows, total_correct_rows, total_additional_rows) := st in
  ratio ← truediv total_correct_rows total_gt_rows;
  print (Summary ratio total_correct_rows total_gt_rows total_additional_rows).

(** ** strip_filename_prefix *)

(** The fields of [datatypes.EmbeddedXlTable] that [__main__.py] reads. *)
Record EmbeddedXlTable := mkEmbeddedXlTable {
  tag : string;
  uc_sets : list (string * string);
  sheetname : string;
  range : string;
  filename : string;
  dataframe : DataFrame
}.

(** What the raw-table helpers are handed: an [EmbeddedXlTable], or a
    pair of a tag and a frame. *)
Inductive RawTable :=
  | Embedded (t : EmbeddedXlTable)
  | Tagged (item : string * DataFrame).

(** [s[n:]] *)
Fixpoint slice_from (n : nat) (s : string) : string :=
  match n, s with
  | 0%nat, _ => s
  | S n, String _ s => slice_from n s
  | S _, EmptyString => EmptyString
  end.

(** [table.filename = name] *)
Definition set_filename (t : EmbeddedXlTable) (name : string) : EmbeddedXlTable :=
  {| tag := tag t; uc_sets := uc_sets t; sheetname := sheetname t;
     range := range t; filename := name; dataframe := dataframe t |}.

(** The table is updated in place and returned; the caller keeps only
    the returned one. *)
Definition strip_filename_prefix (table : RawTable) (prefix : string) : RawTable :=
  match table with
  | Embedded t =>
      if String.prefix prefix (filename t)
      then Embedded (set_filename t (slice_from (String.length prefix + 1) (filename t)))
      else table
  | Tagged _ => table
  end.

(** ** read_csv_tables *)

Section read_csv_tables.

(** [pd.read_csv(os.path.join(input_dir, filename), dtype=str)]: what
    the reader prints and returns, or the exception it ends in, is left
    open. *)
Variable read_csv : string → string → Py DataFrame.

(** [listdir] is what [os.listdir(input_dir)] returns. *)
Definition read_csv_tables (listdir : list string) (input_dir : string) : Py TableStore :=
  foldM (λ result filename,
           df ← read_csv input_dir filename;
           mret (dict_set result (split_dot_head filename) df))
        listdir [].

End read_csv_tables.

(** ** write_csv_tables *)

(** [s.endswith(suffix)] *)
Fixpoint endswith (s suffix : string) : bool :=
  bool_decide (s = suffix) ||
  match s with
  | EmptyString => false
  | String _ s => endswith s suffix
  end.

(** The calls that change the file system. *)
Inductive fs_op :=
  | Makedirs (dir : string)
  | Remove (dir item : string)
  | ToCsv (dir fname : string) (df : DataFrame).

(** [listdir] is what [os.listdir(output_dir)] returns; the result is
    the sequence of calls made when none of them fails. *)
Definition write_csv_tables (listdir : list string) (tables : TableStore)
    (output_dir : string) : list fs_op :=
  [Makedirs output_dir] ++
  (Remove output_dir <$> filter (λ item, endswith item ".csv" = true) listdir) ++
  ((λ kv, ToCsv output_dir (kv.1 +:+ "_output.csv") kv.2) <$> tables).

(** The names of the files written by [to_csv], in the order of the calls. *)
Definition written_files (ops : list fs_op) : list string :=
  omap (λ op, match op with ToCsv _ fname _ => Some fname | _ => None end) ops.

(** ** Notions used in the statements *)

(** [stored_by input m out]: entry [m] finds its source table, passes the
    filters and the column check, and projects it to the non-empty
    table [out]. *)
Definition stored_by (input : TableStore) (m : TimesXlMap) (out : DataFrame) : Prop :=
  ∃ src df,
    dict_get input (xl_name m) = Some src ∧
    (filter_table m src).2 = Ret df ∧
    Forall (λ c, c ∈ columns df) (xl_cols m) ∧
    (project_table m df).2 = Ret out ∧
    len out ≠ 0.

(** A parameter table of the store that lacks its [VALUE] column. *)
Definition bad_parameter (tables : TableStore) (sets : gset string) (t : string) : Prop :=
  (t ∉ sets) ∧ ∃ df, dict_get tables t = Some df ∧ "VALUE" ∉ columns df.

(** The exceptions [write_dd_files] can end in. *)
Definition no_value_error (tables : TableStore) (sets : gset string) (e : exn) : Prop :=
  ∃ t, e = KeyErrorNoValue t ∧ bad_parameter tables sets t.

(** The rows of a store, [sum(df.shape[0] for _, df in store.items())]. *)
Definition total_rows (store : TableStore) : nat := sum_list (len <$> store.*2).

(** What [compare] prints before it walks the ground-truth tables. *)
Definition compare_preamble (data ground_truth : TableStore) : list event :=
  let missing := dict_keys ground_truth ∖ dict_keys data in
  let additional_tables := dict_keys data ∖ dict_keys ground_truth in
  [GroundTruthInfo (length ground_truth) (total_rows ground_truth)] ++
  (if decide (0 < size missing)%nat
   then [MissingTables (size missing) (with_row_counts ground_truth missing)] else []) ++
  (if decide (0 < size additional_tables)%nat
   then [AdditionalTables (size additional_tables) (with_row_counts data additional_tables)]
   else []).

(** [sum(len(data[x]) for x in additional_tables)] *)
Definition additional_table_rows (data ground_truth : TableStore) : nat :=
  sum_list ((λ x, from_option len 0 (dict_get data x))
              <$> elements (dict_keys data ∖ dict_keys ground_truth)).

(** The same table up to the order of its rows. *)
Definition table_permuted (a b : string * DataFrame) : Prop :=
  a.1 = b.1 ∧ columns a.2 = columns b.2 ∧ values a.2 ≡ₚ values b.2.

(** [ground_truth'] is [ground_truth] with the rows of its tables permuted. *)
Definition rows_permuted (ground_truth ground_truth' : TableStore) : Prop :=
  Forall2 table_permuted ground_truth ground_truth'.

(** No column label is cut by [split(".")]. *)
Definition undotted (cols : list string) : Prop :=
  Forall (λ c, split_dot_head c = c) cols.

(** A table whose header survives the suffix stripping and whose rows
    are pairwise distinct. *)
Definition plain_table (df : DataFrame) : Prop :=
  undotted (columns df) ∧ NoDup (values df).

(** A cell equal to [val] up to the case of its ASCII letters. *)
Definition cell_matches (val : string) (c : cell) : Prop :=
  match c with
  | Str s => lower s = lower val
  | NaN => False
  end.

#[global] Instance cell_matches_dec val c : Decision (cell_matches val c).
Proof. destruct c; simpl; apply _. Defined.

(** The row passes the constraint [item] of [filter_rows]. *)
Definition row_matches (cols : list string) (r : row) (item : string * string) : Prop :=
  cell_matches item.2 (row_attr item.1 cols r).

(** A mapping entry that fits its source table: the filter columns exist,
    [techname] exists when [techgroup] is asked for, the sources of
    [col_map] are required columns, and [times_cols] is a non-empty
    selection of the keys of [col_map]. *)
Definition entry_fits (m : TimesXlMap) (src : DataFrame) : Prop :=
  Forall (λ c, c ∈ columns src) (filter_rows m).*1 ∧
  ("techgroup" ∈ xl_cols m → "techname" ∈ columns src) ∧
  Forall (λ x, x ∈ xl_cols m) (col_map m).*2 ∧
  times_cols m ≠ [] ∧
  Forall (λ c, c ∈ (col_map m).*1) (times_cols m).

(** A row that survives the validity rule: no cell is [None] or the
    empty string, and the last cell, the value, is not missing. *)
Definition valid_row (r : row) : Prop :=
  Forall (λ c, c ≠ Str "None" ∧ c ≠ Str "") r ∧ ∃ v, last r = Some (Str v).

(** The warning that lists the unused tables. *)
Definition is_unused_warning (e : event) : Prop :=
  match e with
  | UnusedTables _ _ => True
  | _ => False
  end.

(** The header of the ground-truth table, with the suffixes stripped, is
    the header of the produced table. *)
Definition header_matches (gt_table data_table : DataFrame) : Prop :=
  split_dot_head <$> columns gt_table = columns data_table.

#[global] Instance header_matches_dec gt_table data_table :
  Decision (header_matches gt_table data_table).
Proof. unfold header_matches. apply _. Defined.

(** What one ground-truth table adds to [total_correct_rows]. *)
Definition table_correct (data : TableStore) (item : string * DataFrame) : nat :=
  match dict_get data item.1 with
  | Some data_table =>
      if decide (header_matches item.2 data_table)
      then size (row_set item.2 ∩ row_set data_table) else 0
  | None => 0
  end.

(** What one ground-truth table adds to [total_additional_rows]. *)
Definition table_additional (data : TableStore) (item : string * DataFrame) : nat :=
  match dict_get data item.1 with
  | Some data_table =>
      if decide (header_matches item.2 data_table)
      then size (row_set data_table ∖ row_set item.2) else 0
  | None => 0
  end.

(** A table name that [write_dd_files] routes to one of its two files. *)
Definition routed (config : Config) (t : string) : Prop :=
  t = "ALL_TS" ∨ t ∈ dd_table_order config.

(** The frame after the columns of [done] have been copied in: the
    source columns, then one column per pair. *)
Definition with_copies (df : DataFrame) (done : list (string * string)) : DataFrame :=
  {| columns := columns df ++ done.*1;
     values := (λ r : row, r ++ ((λ kx, row_attr kx.2 (columns df) r) <$> done))
                 <$> values df |}.

(** The pairs of [col_map] whose key is an output column. *)
Definition kept_pairs (keep : list string) (cm : list (string * string))
    : list (string * string) :=
  filter (λ kx, kx.1 ∈ keep) cm.

(** The copied columns of a row, for the kept pairs. *)
Definition copied_cells (df : DataFrame) (pairs : list (string * string)) (r : row) : row :=
  (λ kx, row_attr kx.2 (columns df) r) <$> pairs.

(** The validity rule on one row: the last cell, the value, is not
    missing and no cell is the string [None] or the empty string. *)
Definition row_valid (r : row) : bool :=
  notna (default NaN (last r)) && forallb (cell_ne "None") r && forallb (cell_ne "") r.

(** The cells of a row under the labels [cols], read from a frame with
    header [header]. *)
Definition pick_columns (header cols : list string) (r : row) : row :=
  (λ c, row_attr c header r) <$> cols.

(** The output row of a source row: under each output column, the cell of
    the source column that [col_map] gives for it. *)
Definition projected_row (m : TimesXlMap) (header : list string) (r : row) : row :=
  (λ c, from_option (λ x, row_attr x header r) NaN (dict_get (col_map m) c))
    <$> times_cols m.

(** The table of an entry in closed form: the rows of the source that
    pass every constraint of [filter_rows], read through [col_map],
    without repetitions and without the invalid rows. *)
Definition mapped_table (m : TimesXlMap) (src : DataFrame) : DataFrame :=
  {| columns := times_cols m;
     values :=
       filter (λ r, row_valid r)
         (drop_duplicates_rows
            (projected_row m (columns src) <$>
               filter (λ r, Forall (row_matches (columns src) r) (filter_rows m))
                      (values src))) |}.

(** A string of ASCII characters; on such strings [lower] is
    [str.lower]. *)
Definition is_ascii (s : string) : bool :=
  forallb (λ c, Nat.ltb (nat_of_ascii c) 128) (list_ascii_of_string s).

Definition cell_ascii (c : cell) : bool :=
  match c with
  | Str s => is_ascii s
  | NaN => true
  end.

(** The values of the constraints [fr] and the cells of the table under
    their columns are ASCII strings (or missing). *)
Definition ascii_filters (fr : list (string * string)) (df : DataFrame) : Prop :=
  Forall (λ item, is_ascii item.2 = true ∧
                  Forall (λ r, cell_ascii (row_attr item.1 (columns df) r) = true)
                         (values df)) fr.

(** An entry that fits its well-formed source table, does not ask for
    the technology group, whose [col_map] has distinct keys that are
    not columns of the source, and whose filters compare ASCII strings. *)
Definition plain_entry (m : TimesXlMap) (src : DataFrame) : Prop :=
  frame_wf src ∧ entry_fits m src ∧ ("techgroup" ∉ xl_cols m) ∧
  NoDup (col_map m).*1 ∧ Forall (λ k, k ∉ columns src) (col_map m).*1 ∧
  ascii_filters (filter_rows m) src.

(** ** Example inputs *)

(** An entry over [techs] that asks for the technology group. *)
Definition ex_mapping_techgroup : TimesXlMap :=
  {| times_name := "PRC_GRP";
     times_cols := ["TECH"; "GROUP"];
     xl_name := "techs";
     xl_cols := ["techname"; "techgroup"];
     col_map := [("TECH", "techname"); ("GROUP", "techgroup")];
     filter_rows := [("region", "eu")] |}.


Definition ex_techs : DataFrame :=
  {| columns := ["region"; "techname"; "value"];
     values := [[Str "EU"; Str "T1"; Str "5"];
                [Str "US"; Str "T2"; Str "3"];
                [Str "EU"; Str "T3"; Str "None"]] |}.

Definition ex_mapping (name : string) : TimesXlMap :=
  {| times_name := name;
     times_cols := ["REGION"; "TECH"; "VALUE"];
     xl_name := "techs";
     xl_cols := ["region"; "techname"; "value"];
     col_map := [("REGION", "region"); ("TECH", "techname"); ("VALUE", "value")];
     filter_rows := [("region", "EU")] |}.

Definition ex_config (name : string) : Config :=
  {| times_xl_maps := [ex_mapping name]; dd_table_order := [name] |}.

Definition ex_output : DataFrame :=
  {| columns := ["REGION"; "TECH"; "VALUE"];
     values := [[Str "EU"; Str "T1"; Str "5"]] |}.

(** An entry whose filter matches no row of [techs]. *)
Definition ex_mapping_asia : TimesXlMap :=
  {| times_name := "ACT";
     times_cols := ["REGION"; "TECH"; "VALUE"];
     xl_name := "techs";
     xl_cols := ["region"; "techname"; "value"];
     col_map := [("REGION", "region"); ("TECH", "techname"); ("VALUE", "value")];
     filter_rows := [("region", "ASIA")] |}.

Definition ex_no_region : DataFrame :=
  {| columns := ["techname"; "value"]; values := [[Str "T1"; Str "5"]] |}.

Definition ex_no_value : DataFrame :=
  {| columns := ["REGION"; "TECH"]; values := [[Str "EU"; Str "T1"]] |}.

Definition ex_groups : DataFrame :=
  {| columns := ["techname"; "techgroup"];
     values := [[Str "T1"; Str "G1"]; [Str "T2"; Str "G2"]] |}.

Definition ex_mapping_groups : TimesXlMap :=
  {| times_name := "PRC_GRP";
     times_cols := ["TECH"; "GROUP"];
     xl_name := "techs";
     xl_cols := ["techname"; "techgroup"];
     col_map := [("TECH", "techname"); ("GROUP", "techgroup")];
     filter_rows := [] |}.

Definition ex_techs_reversed : DataFrame :=
  {| columns := ["region"; "techname"; "value"];
     values := [[Str "EU"; Str "T3"; Str "None"];
                [Str "US"; Str "T2"; Str "3"];
                [Str "EU"; Str "T1"; Str "5"]] |}.

(** An entry whose output column carries a dot in its name. *)
Definition ex_mapping_dotted : TimesXlMap :=
  {| times_name := "ACT";
     times_cols := ["TECH.1"];
     xl_name := "techs";
     xl_cols := ["techname"];
     col_map := [("TECH.1", "techname")];
     filter_rows := [] |}.

Definition ex_dotted : DataFrame :=
  {| columns := ["TECH.1"]; values := [[Str "T1"]; [Str "T2"]; [Str "T3"]] |}.

Definition ex_techs_twice : DataFrame :=
  {| columns := ["region"; "techname"; "value"];
     values := [[Str "EU"; Str "T1"; Str "5"];
                [Str "eu"; Str "T1"; Str "5"];
                [Str "EU"; Str "T1"; Str "5"]] |}.

Definition ex_mapping_narrow : TimesXlMap :=
  {| times_name := "TECHS";
     times_cols := ["TECH"; "VALUE"];
     xl_name := "techs";
     xl_cols := ["region"; "techname"; "value"];
     col_map := [("REGION", "region"); ("TECH", "techname"); ("VALUE", "value")];
     filter_rows := [] |}.

Definition ex_techs_mixed : DataFrame :=
  {| columns := ["region"; "techname"; "value"];
     values := [[Str "EU"; Str "T1"; Str "5"];
                [Str "US"; Str "T1"; Str "5"];
                [Str "EU"; Str "T2"; NaN];
                [Str "EU"; Str "T3"; Str "None"];
                [Str "US"; Str "T4"; Str "7"]] |}.


Definition ex_raw_table (name : string) : EmbeddedXlTable :=
  {| tag := "~FI_T"; uc_sets := []; sheetname := "Sheet1"; range := "A1:C4";
     filename := name; dataframe := ex_techs |}.

Definition ex_read_csv (input_dir filename : string) : Py DataFrame :=
  mret {| columns := [filename]; values := [] |}.

(** * Properties *)

(** ** The output monad *)

Lemma bind_Ret {A B} (m : Py A) (f : A → Py B) b :
  (m ≫= f).2 = Ret b ↔ ∃ a, m.2 = Ret a ∧ (f a).2 = Ret b.
Proof.
  destruct m as [l [a|e]]; unfold mbind, Py_bind; simpl.
  - destruct (f a) as [l' r] eqn:E; simpl. split.
    + intros ->. exists a. rewrite E. by split.
    + intros (a' & [= <-] & H). by rewrite E in H.
  - split; [done|]. by intros (a & ? & _).
Qed.

Lemma bind_Raise {A B} (m : Py A) (f : A → Py B) e :
  (m ≫= f).2 = Raise e ↔ m.2 = Raise e ∨ ∃ a, m.2 = Ret a ∧ (f a).2 = Raise e.
Proof.
  destruct m as [l [a|e']]; unfold mbind, Py_bind; simpl.
  - destruct (f a) as [l' r] eqn:E; simpl. split.
    + intros ->. right. exists a. rewrite E. by split.
    + intros [?|(a' & [= <-] & H)]; [done|]. by rewrite E in H.
  - split; [intros [= ->]; by left|]. by intros [[= ->]|(a & ? & _)].
Qed.

Lemma foldM_cons {A B} (f : B → A → Py B) x l b :
  foldM f (x :: l) b = f b x ≫= foldM f l.
Proof. done. Qed.

Lemma foldM_Ret_inv {A B} (f : B → A → Py B) (P : B → Prop) l :
  (∀ b x b', P b → x ∈ l → (f b x).2 = Ret b' → P b') →
  ∀ b b', P b → (foldM f l b).2 = Ret b' → P b'.
Proof.
  induction l as [|x l IH]; intros Hstep b b' Hb; simpl.
  - by intros [= <-].
  - intros (b1 & H1 & H2)%bind_Ret.
    eapply IH; [|by eapply (Hstep b x); [|left|]|done].
    intros ???? Hin. eapply Hstep; [done|by right].
Qed.

(** ** Dictionaries *)

Section dict_facts.
Context {V : Type}.
Implicit Types (d : list (string * V)) (k : string) (v : V).

Lemma dict_get_set d k v k' :
  dict_get (dict_set d k v) k' = if decide (k = k') then Some v else dict_get d k'.
Proof.
  induction d as [|[k0 v0] d IH]; simpl.
  - done.
  - destruct (decide (k0 = k)) as [->|Hne]; simpl.
    + by destruct (decide (k = k')).
    + rewrite IH. destruct (decide (k0 = k')) as [->|]; [|done].
      by rewrite decide_False.
Qed.

Lemma dict_set_keys d k v : k ∈ d.*1 → (dict_set d k v).*1 = d.*1.
Proof.
  induction d as [|[k0 v0] d IH]; simpl; [by intros ?%elem_of_nil|].
  destruct (decide (k0 = k)) as [->|Hne]; simpl; [done|].
  intros [?|?]%elem_of_cons; [congruence|]. f_equal. by apply IH.
Qed.

Lemma dict_set_keys_new d k v : k ∉ d.*1 → (dict_set d k v).*1 = d.*1 ++ [k].
Proof.
  induction d as [|[k0 v0] d IH]; simpl; [done|].
  intros [? ?]%not_elem_of_cons.
  rewrite decide_False by done. simpl. f_equal. by apply IH.
Qed.

Lemma dict_set_wf d k v : dict_wf d → dict_wf (dict_set d k v).
Proof.
  unfold dict_wf. intros Hd. destruct (decide (k ∈ d.*1)).
  - by rewrite dict_set_keys.
  - rewrite dict_set_keys_new by done.
    apply NoDup_app. split_and!; [done| |apply NoDup_singleton].
    by intros x ? ->%list_elem_of_singleton.
Qed.

Lemma dict_set_Forall (P : string * V → Prop) d k v :
  Forall P d → P (k, v) → Forall P (dict_set d k v).
Proof.
  intros Hd Hkv. induction Hd as [|[k0 v0] d H0 Hd IH]; simpl.
  - by constructor.
  - destruct (decide (k0 = k)); by constructor.
Qed.

Lemma dict_get_Some d k v : dict_get d k = Some v → (k, v) ∈ d.
Proof.
  induction d as [|[k0 v0] d IH]; simpl; [done|].
  destruct (decide (k0 = k)) as [->|].
  - intros [= ->]. by left.
  - intros ?. right. by apply IH.
Qed.

Lemma dict_get_elem_of d k v : dict_wf d → (k, v) ∈ d → dict_get d k = Some v.
Proof.
  unfold dict_wf. induction d as [|[k0 v0] d IH]; simpl.
  - by intros _ ?%elem_of_nil.
  - intros [Hk0 Hd]%NoDup_cons [[= -> ->]|Hin]%elem_of_cons.
    + by rewrite decide_True.
    + rewrite decide_False; [by apply IH|].
      intros ->. apply Hk0. apply list_elem_of_fmap. by exists (k, v).
Qed.

Lemma dict_get_is_Some d k : is_Some (dict_get d k) ↔ k ∈ dict_keys d.
Proof.
  unfold dict_keys. rewrite elem_of_list_to_set.
  induction d as [|[k0 v0] d IH]; simpl.
  - rewrite is_Some_alt. by rewrite elem_of_nil.
  - rewrite elem_of_cons. destruct (decide (k0 = k)) as [->|].
    + split; [by left|by eauto].
    + rewrite IH. split; [by right|]. by intros [?|?].
Qed.
End dict_facts.

(** ** The canonicalizer *)

Lemma loc_columns df i cols out : (loc df i cols).2 = Ret out → columns out = cols.
Proof.
  unfold loc. destruct (filter _ cols); [|done]. by intros [= <-].
Qed.

Lemma project_table_columns m df out :
  (project_table m df).2 = Ret out → columns out = times_cols m.
Proof.
  unfold project_table.
  intros (df1 & _ & (i & _ & H)%bind_Ret)%bind_Ret.
  by apply loc_columns in H.
Qed.

(** What one round of the loop does to [result] when it returns. *)
Lemma process_mapping_Ret input result used m result' used' :
  (process_mapping input (result, used) m).2 = Ret (result', used') →
  result' = result ∨
  ∃ out, stored_by input m out ∧ result' = dict_set result (times_name m) out.
Proof.
  unfold process_mapping.
  destruct (dict_get input (xl_name m)) as [src|] eqn:Hsrc.
  - intros (df & Hdf & H)%bind_Ret.
    destruct (decide (Forall _ _)) as [Hcols|_].
    + apply bind_Ret in H as (out & Hout & H).
      destruct (decide (len out = 0)) as [|Hlen].
      * left. by injection H.
      * right. exists out. split; [by exists src, df|]. by injection H.
    + left. by injection H.
  - intros H. left. by injection H.
Qed.

(** Every table of the returned store was stored by an entry of that
    name, and the store is a dict. *)
Lemma produce_times_tables_items config input result :
  (produce_times_tables config input).2 = Ret result →
  dict_wf result ∧
  Forall (λ kv, ∃ m, m ∈ times_xl_maps config ∧ times_name m = kv.1 ∧
                     stored_by input m kv.2) result.
Proof.
  unfold produce_times_tables.
  intros (_ & _ & ([res used] & Hfold & H)%bind_Ret)%bind_Ret.
  apply bind_Ret in H as (_ & _ & [= <-]). simpl.
  revert Hfold.
  apply (foldM_Ret_inv _ (λ st, dict_wf st.1 ∧ Forall _ st.1)); simpl.
  - intros [r u] m [r' u'] [Hwf Hall] Hm
      [->|(out & Hout & ->)]%process_mapping_Ret; simpl in *; [done|].
    split; [by apply dict_set_wf|].
    apply dict_set_Forall; [done|]. by exists m.
  - split; [apply NoDup_nil_2|constructor].
Qed.

(** C1. Every mapping entry whose preconditions are met (its source table
    is present and all of its [xl_cols] are present after filtering) stores
    under its [times_name] a table whose columns are exactly its
    [times_cols], in that order. In the round of the loop that handles the
    entry, the projected table has these columns and is what the store
    holds under [times_name] afterwards (unless it has no row, when the
    store is left as it was); and every table of the store that
    [produce_times_tables] returns has the [times_cols] of an entry of
    that name whose source table is present. *)
Theorem produce_times_tables_columns input :
  (∀ m src df result used st',
     dict_get input (xl_name m) = Some src →
     (filter_table m src).2 = Ret df →
     Forall (λ c, c ∈ columns df) (xl_cols m) →
     (process_mapping input (result, used) m).2 = Ret st' →
     ∃ out, (project_table m df).2 = Ret out ∧
            columns out = times_cols m ∧
            (len out ≠ 0 → dict_get st'.1 (times_name m) = Some out) ∧
            (len out = 0 → st'.1 = result)) ∧
  (∀ config result name out,
     (produce_times_tables config input).2 = Ret result →
     dict_get result name = Some out →
     ∃ m, m ∈ times_xl_maps config ∧ times_name m = name ∧
          is_Some (dict_get input (xl_name m)) ∧
          columns out = times_cols m).
Proof.
  split.
  - intros m src df result used st' Hsrc Hdf Hcols.
    unfold process_mapping. rewrite Hsrc.
    intros (df' & Hdf' & H)%bind_Ret.
    rewrite Hdf in Hdf'. injection Hdf' as <-.
    rewrite decide_True in H by done.
    apply bind_Ret in H as (out & Hout & H).
    exists out. split_and!; [done|by eapply project_table_columns|..].
    + intros Hlen. rewrite decide_False in H by done. injection H as <-.
      simpl. rewrite dict_get_set. by rewrite decide_True.
    + intros Hlen. rewrite decide_True in H by done. by injection H as <-.
  - intros config result name out [_ Hall]%produce_times_tables_items
      Hget%dict_get_Some.
    rewrite Forall_forall in Hall.
    destruct (Hall _ Hget) as (m & Hm & Hname & src & df & Hsrc & _ & _ & Hout & _).
    exists m. split_and!; [done|done|by eexists|by eapply project_table_columns].
Qed.

Lemma produce_times_tables_columns_witness :
  (∃ out, (project_table (ex_mapping "ACT")
             {| columns := ["region"; "techname"; "value"];
                values := [[Str "EU"; Str "T1"; Str "5"];
                           [Str "EU"; Str "T3"; Str "None"]] |}).2 = Ret out ∧
          columns out = ["REGION"; "TECH"; "VALUE"]) ∧
  (∃ out, dict_get [("ACT", ex_output)] "ACT" = Some out ∧
          columns out = ["REGION"; "TECH"; "VALUE"]).
Proof.
  pose proof (produce_times_tables_columns [("techs", ex_techs)]) as [Hstep Hrun].
  split.
  - destruct (Hstep (ex_mapping "ACT") ex_techs
                {| columns := ["region"; "techname"; "value"];
                   values := [[Str "EU"; Str "T1"; Str "5"];
                              [Str "EU"; Str "T3"; Str "None"]] |}
                [] ∅ ([("ACT", ex_output)], ∅ ∪ {[ "techs" ]}))
      as (out & Hout & Hcols & _).
    + reflexivity.
    + vm_compute; reflexivity.
    + apply Forall_forall. intros c Hc. simpl in *.
      repeat (apply elem_of_cons in Hc as [->|Hc]);
        [by left|right; by left|do 2 right; by left|by apply elem_of_nil in Hc].
    + vm_compute; reflexivity.
    + by exists out.
  - destruct (Hrun (ex_config "ACT") [("ACT", ex_output)] "ACT" ex_output)
      as (m & Hm & _ & _ & Hcols); [vm_compute; reflexivity..|].
    exists ex_output. split; [reflexivity|].
    apply list_elem_of_singleton in Hm. subst m. exact Hcols.
Defined.

(** C2. The worked example: the source table [techs] with the region
    filter ["EU"] and the mapping to [REGION, TECH, VALUE] yields exactly
    the one row [("EU","T1","5")]; the US row goes with the region filter
    and the ["None"] row with the row validity rule. *)
Theorem produce_times_tables_example name :
  produce_times_tables (ex_config name) [("techs", ex_techs)]
    = ([Incoming 1 3], Ret [(name, ex_output)]) ∧
  filter_table (ex_mapping name) ex_techs
    = ([], Ret {| columns := ["region"; "techname"; "value"];
                  values := [[Str "EU"; Str "T1"; Str "5"];
                             [Str "EU"; Str "T3"; Str "None"]] |}) ∧
  valid_rows (ex_mapping name)
      {| columns := ["REGION"; "TECH"; "VALUE"];
         values := [[Str "EU"; Str "T1"; Str "5"];
                    [Str "EU"; Str "T3"; Str "None"]] |}
    = ([], Ret [true; false]).
Proof. split_and!; vm_compute; reflexivity. Qed.

(** C6. The store returned by [produce_times_tables] never contains an
    empty table; an entry whose rows are all removed by filtering,
    deduplication and the validity rule stores nothing: its round of the
    loop leaves the store as it was. *)
Theorem produce_times_tables_no_empty_table input :
  (∀ config result,
     (produce_times_tables config input).2 = Ret result →
     Forall (λ kv, len kv.2 ≠ 0) result ∧
     ∀ name out, dict_get result name = Some out → len out ≠ 0) ∧
  (∀ m src df out result used,
     dict_get input (xl_name m) = Some src →
     (filter_table m src).2 = Ret df →
     Forall (λ c, c ∈ columns df) (xl_cols m) →
     (project_table m df).2 = Ret out →
     len out = 0 →
     (process_mapping input (result, used) m).2
       = Ret (result, used ∪ {[ xl_name m ]})).
Proof.
  split.
  - intros config result [_ Hall]%produce_times_tables_items.
    assert (Forall (λ kv : string * DataFrame, len kv.2 ≠ 0) result) as Hlen.
    { eapply Forall_impl; [exact Hall|].
      by intros [k v] (m & _ & _ & src & df & _ & _ & _ & _ & Hlen). }
    split; [done|].
    intros name out Hget%dict_get_Some.
    rewrite Forall_forall in Hlen. by apply (Hlen _ Hget).
  - intros m src df out result used Hsrc Hdf Hcols Hout Hlen.
    unfold process_mapping. rewrite Hsrc.
    apply bind_Ret. exists df. split; [done|].
    rewrite decide_True by done.
    apply bind_Ret. exists out. split; [done|].
    by rewrite decide_True.
Qed.

Lemma produce_times_tables_no_empty_table_witness :
  len ex_output ≠ 0 ∧
  (process_mapping [("techs", ex_techs)] ([], ∅) ex_mapping_asia).2
    = Ret ([], ∅ ∪ {[ "techs" ]}).
Proof.
  pose proof (produce_times_tables_no_empty_table [("techs", ex_techs)]) as [Hrun Hstep].
  split.
  - apply (proj2 (Hrun (ex_config "ACT") [("ACT", ex_output)] ltac:(vm_compute; reflexivity))
             "ACT" ex_output).
    vm_compute; reflexivity.
  - apply (Hstep ex_mapping_asia ex_techs
             {| columns := ["region"; "techname"; "value"]; values := [] |}
             {| columns := ["REGION"; "TECH"; "VALUE"]; values := [] |}).
    + vm_compute; reflexivity.
    + vm_compute; reflexivity.
    + repeat constructor.
    + vm_compute; reflexivity.
    + reflexivity.
Defined.

(** ** A filter column that the source table lacks *)

Lemma apply_filter_columns m df item df' :
  (apply_filter m df item).2 = Ret df' → columns df' = columns df.
Proof.
  destruct item as [fc fv]. unfold apply_filter.
  intros (_ & _ & (col & _ & [= <-])%bind_Ret)%bind_Ret. done.
Qed.

Lemma getitem_missing df c : c ∉ columns df → getitem df c = ([], Raise (KeyError [c])).
Proof.
  intros Hc. unfold getitem, col_index.
  destruct (list_find _ _) as [[i x]|] eqn:E; [|done].
  apply list_find_Some in E as (Hi & -> & _).
  destruct Hc. by eapply list_elem_of_lookup_2.
Qed.

Lemma apply_filters_missing m fr df c :
  c ∈ fr.*1 → c ∉ columns df →
  ∃ c', (c' ∉ columns df) ∧ (foldM (apply_filter m) fr df).2 = Raise (KeyError [c']).
Proof.
  revert df. induction fr as [|[fc fv] fr IH]; intros df Hin Hc.
  - by apply elem_of_nil in Hin.
  - rewrite fmap_cons in Hin. rewrite foldM_cons.
    destruct (decide (fc ∈ columns df)) as [Hfc|Hfc].
    + apply elem_of_cons in Hin as [->|Hin]; [done|].
      destruct (apply_filter m df (fc, fv)) as [l [df'|e]] eqn:E.
      * assert (columns df' = columns df) as Hcols.
        { eapply apply_filter_columns. by rewrite E. }
        destruct (IH df' Hin) as (c' & Hc' & Hr); [by rewrite Hcols|].
        exists c'. rewrite <-Hcols. split; [done|].
        apply bind_Raise. right. by exists df'.
      * exfalso. revert E. unfold apply_filter. rewrite decide_True by done.
        unfold getitem, col_index.
        destruct (list_find _ _) as [[i x]|] eqn:Hfind; [done|].
        apply list_find_None in Hfind. rewrite Forall_forall in Hfind.
        by destruct (Hfind fc).
    + exists fc. split; [done|].
      apply bind_Raise. left. unfold apply_filter.
      rewrite decide_False by done. rewrite getitem_missing by done. done.
Qed.

(** Whenever some entry names a filter column that its source table
    lacks, the run ends in an exception: no store is returned. *)
Lemma missing_filter_column_raises config input m src c :
  m ∈ times_xl_maps config →
  dict_get input (xl_name m) = Some src →
  c ∈ (filter_rows m).*1 →
  c ∉ columns src →
  ∃ e, (produce_times_tables config input).2 = Raise e.
Proof.
  intros Hm Hsrc Hc Hcols.
  assert (∀ st, ∃ e, (process_mapping input st m).2 = Raise e) as Hstep.
  { intros [result used]. unfold process_mapping. rewrite Hsrc.
    destruct (apply_filters_missing m (filter_rows m) src c) as (c' & _ & Hr); [done..|].
    exists (KeyError [c']). apply bind_Raise. left. apply bind_Raise. by left. }
  assert (∀ st, ∃ e, (foldM (process_mapping input) (times_xl_maps config) st).2 = Raise e)
    as Hfold.
  { induction (times_xl_maps config) as [|m' ms IH]; intros st.
    - by apply elem_of_nil in Hm.
    - rewrite foldM_cons. destruct (process_mapping input st m') as [l [st'|e]] eqn:E.
      + apply elem_of_cons in Hm as [->|Hm].
        * destruct (Hstep st) as [e He]. by rewrite E in He.
        * destruct (IH Hm st') as [e He]. exists e.
          apply bind_Raise. right. by exists st'.
      + exists e. apply bind_Raise. by left. }
  destruct (Hfold ([], ∅)) as [e He]. exists e.
  unfold produce_times_tables. apply bind_Raise. right. exists tt. split; [done|].
  apply bind_Raise. by left.
Qed.

(** C3 (the code departs from it). With the filter column [region]
    absent from the source table, [produce_times_tables] prints the
    warning and then raises [KeyError] on [df[filter_col]]: the run is
    aborted and no store is returned. *)
Theorem produce_times_tables_missing_filter_column :
  produce_times_tables (ex_config "ACT") [("techs", ex_no_region)]
    = ([Incoming 1 1; NoFilterColumn "ACT" "techs" "region"],
       Raise (KeyError ["region"])).
Proof. vm_compute. reflexivity. Qed.

(** ** The DD serializer *)

(** C4 (amended). A set table with the row [("A","B")] and the description
    column [TEXT = "desc"] serializes its row as ['A'.'B' 'desc'] and a
    newline: the key fields are each quoted and joined by a dot. A parameter
    row with one key column ["X"] and [VALUE = "10"] serializes as ['X' 10]
    and a newline, and one with no key column as [10] and a newline. *)
Theorem convert_rows_examples c1 c2 k tablename :
  c1 ≠ "TEXT" → c2 ≠ "TEXT" → k ≠ "VALUE" →
  convert_set {| columns := [c1; c2; "TEXT"];
                 values := [[Str "A"; Str "B"; Str "desc"]] |}
    = ["'A'.'B' 'desc'" +:+ nl] ∧
  convert_parameter tablename {| columns := [k; "VALUE"];
                                 values := [[Str "X"; Str "10"]] |}
    = ([], Ret ["'X' 10" +:+ nl]) ∧
  convert_parameter tablename {| columns := ["VALUE"]; values := [[Str "10"]] |}
    = ([], Ret ["10" +:+ nl]).
Proof.
  intros H1 H2 Hk. split_and!.
  - unfold convert_set, row_str, row_attr, col_index. simpl.
    rewrite bool_decide_eq_true_2 by (do 2 right; left).
    rewrite !filter_cons. simpl. rewrite !decide_True by done.
    rewrite (decide_False (P := c1 = "TEXT")) by done.
    rewrite (decide_False (P := c2 = "TEXT")) by done.
    reflexivity.
  - unfold convert_parameter, row_str, row_attr, col_index. simpl.
    rewrite decide_False by (intros Hn; apply Hn; set_solver).
    simpl. rewrite !filter_cons. simpl.
    rewrite (decide_True (P := k ≠ "VALUE")) by done.
    rewrite (decide_False (P := k = "VALUE")) by done.
    reflexivity.
  - vm_compute. reflexivity.
Qed.

Lemma convert_rows_examples_witness :
  convert_set {| columns := ["ALL_R"; "PRC"; "TEXT"];
                 values := [[Str "A"; Str "B"; Str "desc"]] |}
    = ["'A'.'B' 'desc'" +:+ nl].
Proof.
  apply (convert_rows_examples "ALL_R" "PRC" "PRC" "PRC_DESC"); intros [=].
Defined.

(** The set row of the example is not serialized as ['A.B' 'desc']. *)
Lemma convert_set_keys_not_joined_bare :
  convert_set {| columns := ["ALL_R"; "PRC"; "TEXT"];
                 values := [[Str "A"; Str "B"; Str "desc"]] |}
    ≠ ["'A.B' 'desc'" +:+ nl].
Proof. vm_compute. intros [=]. Qed.

Lemma foldM_unit_raise {A} (f : unit → A → Py unit) (Bad : exn → Prop) l x :
  x ∈ l →
  (∀ y, y ∈ l → (f tt y).2 = Ret tt ∨ ∃ e, (f tt y).2 = Raise e ∧ Bad e) →
  (∃ e, (f tt x).2 = Raise e) →
  ∃ e, (foldM f l tt).2 = Raise e ∧ Bad e.
Proof.
  intros Hx Hall [e0 Hraise].
  induction l as [|y l IH]; [by apply elem_of_nil in Hx|].
  rewrite foldM_cons.
  destruct (Hall y) as [Hy|(e & Hy & He)]; [by left| |].
  - apply elem_of_cons in Hx as [->|Hx]; [congruence|].
    destruct IH as (e & He & Hbad); [done| |].
    { intros z Hz. apply Hall. by right. }
    exists e. split; [|done]. apply bind_Raise. right. by exists tt.
  - exists e. split; [|done]. apply bind_Raise. by left.
Qed.

Lemma foldM_unit_outcome {A} (f : unit → A → Py unit) (Bad : exn → Prop) l :
  (∀ y, y ∈ l → (f tt y).2 = Ret tt ∨ ∃ e, (f tt y).2 = Raise e ∧ Bad e) →
  (foldM f l tt).2 = Ret tt ∨ ∃ e, (foldM f l tt).2 = Raise e ∧ Bad e.
Proof.
  intros Hall. induction l as [|y l IH]; [by left|].
  rewrite foldM_cons.
  destruct (Hall y) as [Hy|(e & Hy & He)]; [by left| |].
  - destruct IH as [IH|(e & He & Hbad)].
    { intros z Hz. apply Hall. by right. }
    + left. apply bind_Ret. by exists tt.
    + right. exists e. split; [|done]. apply bind_Raise. right. by exists tt.
  - right. exists e. split; [|done]. apply bind_Raise. by left.
Qed.

Lemma write_table_outcome tables sets fname t :
  is_Some (dict_get tables t) →
  (bad_parameter tables sets t ∧
     (write_table tables sets fname tt t).2 = Raise (KeyErrorNoValue t)) ∨
  (¬ bad_parameter tables sets t ∧ (write_table tables sets fname tt t).2 = Ret tt).
Proof.
  intros [df Hdf]. unfold write_table, bad_parameter. rewrite Hdf. simpl.
  destruct (decide (t ∈ sets)) as [Hset|Hset].
  - right. split; [by intros [? _]|done].
  - unfold convert_parameter.
    destruct (decide ("VALUE" ∉ columns df)) as [Hval|Hval].
    + left. split; [|done]. split; [done|]. by exists df.
    + right. split; [|done]. intros [_ (df' & [= <-] & ?)]. done.
Qed.

Lemma write_file_outcome tables sets item :
  (write_file tables sets tt item).2 = Ret tt ∨
  ∃ e, (write_file tables sets tt item).2 = Raise e ∧ no_value_error tables sets e.
Proof.
  destruct item as [fname tablenames]. unfold write_file.
  destruct (foldM_unit_outcome (write_table tables sets fname)
              (no_value_error tables sets)
              (filter (λ t, is_Some (dict_get tables t)) tablenames))
    as [H|(e & H & He)].
  - intros t [Ht _]%list_elem_of_filter.
    destruct (write_table_outcome tables sets fname t Ht) as [[Hbad Hr]|[_ Hr]];
      [right|by left].
    eexists. split; [done|]. by exists t.
  - left. apply bind_Ret. by exists tt.
  - right. exists e. split; [|done]. apply bind_Raise. right. by exists tt.
Qed.

Lemma write_file_raises tables sets fname tablenames t :
  t ∈ tablenames → bad_parameter tables sets t →
  ∃ e, (write_file tables sets tt (fname, tablenames)).2 = Raise e.
Proof.
  intros Ht Hbad. unfold write_file.
  assert (is_Some (dict_get tables t)) as Hsome.
  { destruct Hbad as [_ (df & -> & _)]. by eexists. }
  destruct (foldM_unit_raise (write_table tables sets fname)
              (no_value_error tables sets)
              (filter (λ t, is_Some (dict_get tables t)) tablenames) t)
    as (e & H & _).
  - by apply list_elem_of_filter.
  - intros y [Hy _]%list_elem_of_filter.
    destruct (write_table_outcome tables sets fname y Hy) as [[Hb Hr]|[_ Hr]];
      [right|by left].
    eexists. split; [done|]. by exists y.
  - destruct (write_table_outcome tables sets fname t Hsome) as [[_ Hr]|[Hn _]];
      [by eexists|done].
  - exists e. apply bind_Raise. right. by exists tt.
Qed.

(** C5 (amended). A parameter table (its name is not classified as a set)
    that lacks a [VALUE] column, is held by the store and is routed to an
    output file (it is [ALL_TS] or listed in [dd_table_order]) makes
    [write_dd_files] raise [KeyError] for such a table, neither skipping
    nor warning. *)
Theorem write_dd_files_missing_value tables config tablename df :
  tablename = "ALL_TS" ∨ tablename ∈ dd_table_order config →
  dict_get tables tablename = Some df →
  tablename ∉ set_tables config →
  "VALUE" ∉ columns df →
  ∃ t df', (write_dd_files tables config).2 = Raise (KeyErrorNoValue t) ∧
           dict_get tables t = Some df' ∧
           (t ∉ set_tables config) ∧
           "VALUE" ∉ columns df'.
Proof.
  intros Hrouted Hdf Hset Hval.
  assert (bad_parameter tables (set_tables config) tablename) as Hbad.
  { split; [done|]. by exists df. }
  destruct (foldM_unit_raise (write_file tables (set_tables config))
              (no_value_error tables (set_tables config))
              (tables_in_file config)
              (if decide (tablename = "ALL_TS") then ("ts.dd", ["ALL_TS"])
               else ("output.dd", filter (λ t, t ≠ "ALL_TS") (dd_table_order config))))
    as (e & H & t & -> & Ht & df' & Hdf' & Hval').
  - unfold tables_in_file. case_decide; [by left|right; by left].
  - intros item _. apply write_file_outcome.
  - case_decide as Hts.
    + apply (write_file_raises _ _ _ _ tablename); [|done]. subst. by left.
    + apply (write_file_raises _ _ _ _ tablename); [|done].
      apply list_elem_of_filter. by destruct Hrouted.
  - by exists t, df'.
Qed.

Lemma write_dd_files_missing_value_witness :
  ∃ t, (write_dd_files [("ACT", ex_no_value)]
          {| times_xl_maps := []; dd_table_order := ["ACT"] |}).2
       = Raise (KeyErrorNoValue t).
Proof.
  destruct (write_dd_files_missing_value [("ACT", ex_no_value)]
              {| times_xl_maps := []; dd_table_order := ["ACT"] |} "ACT" ex_no_value)
    as (t & _ & H & _).
  - right. simpl. by left.
  - reflexivity.
  - set_solver.
  - simpl. intros H. repeat (apply elem_of_cons in H as [[=]|H]). by apply elem_of_nil in H.
  - by exists t.
Defined.

(** The same parameter table, in the store but not routed to any file,
    is passed over in silence: [write_dd_files] returns normally. *)
Lemma write_dd_files_unrouted_parameter :
  let tables := [("ACT", ex_no_value)] in
  let config := {| times_xl_maps := []; dd_table_order := [] |} in
  dict_get tables "ACT" = Some ex_no_value ∧
  ("ACT" ∉ set_tables config) ∧
  ("VALUE" ∉ columns ex_no_value) ∧
  write_dd_files tables config = ([OpenFile "ts.dd"; OpenFile "output.dd"], Ret tt).
Proof.
  split_and!; [reflexivity|set_solver| |vm_compute; reflexivity].
  simpl. intros H. repeat (apply elem_of_cons in H as [[=]|H]). by apply elem_of_nil in H.
Qed.

(** ** Reading and writing columns *)

Lemma col_index_Some c cols i :
  col_index c cols = Some i → cols !! i = Some c ∧ i < length cols.
Proof.
  unfold col_index. destruct (list_find _ _) as [[j x]|] eqn:E; [|done].
  intros [= <-]. apply list_find_Some in E as (Hj & -> & _).
  split; [done|]. by eapply lookup_lt_Some.
Qed.

Lemma col_index_None c cols : col_index c cols = None ↔ c ∉ cols.
Proof.
  unfold col_index. destruct (list_find _ _) as [[j x]|] eqn:E; simpl.
  - apply list_find_Some in E as (Hj & -> & _).
    split; [done|]. intros []. by eapply list_elem_of_lookup_2.
  - split; [|done]. intros _ Hc.
    apply list_find_None in E. rewrite Forall_forall in E. by apply (E c).
Qed.

Lemma col_index_app_new c cols : c ∉ cols → col_index c (cols ++ [c]) = Some (length cols).
Proof.
  intros Hc%col_index_None. unfold col_index in *.
  destruct (list_find _ cols) as [[j x]|] eqn:E; [done|].
  rewrite list_find_app_r by done. simpl. by rewrite decide_True.
Qed.

Lemma col_index_app_other c c' cols : c' ≠ c → col_index c' (cols ++ [c]) = col_index c' cols.
Proof.
  intros Hne. unfold col_index.
  destruct (list_find _ cols) as [[j x]|] eqn:E.
  - by erewrite list_find_app_l.
  - rewrite list_find_app_r by done. simpl. by rewrite decide_False.
Qed.

Lemma getitem_Ret df c col :
  (getitem df c).2 = Ret col ↔
  ∃ i, col_index c (columns df) = Some i ∧ col = cell_at i <$> values df.
Proof.
  unfold getitem. destruct (col_index c (columns df)) as [i|]; simpl.
  - split; [intros [= <-]; by exists i|]. by intros (j & [= <-] & ->).
  - split; [done|]. by intros (j & ? & _).
Qed.

Lemma getitem_length df c col : (getitem df c).2 = Ret col → length col = len df.
Proof. intros (i & _ & ->)%getitem_Ret. by rewrite length_fmap. Qed.

Section column_update.
Implicit Types (rows : list row) (col : list cell).

Lemma cell_at_insert_eq i rows col :
  Forall (λ r : row, i < length r) rows → length col = length rows →
  cell_at i <$> zip_with (λ (r : row) x, <[i:=x]> r) rows col = col.
Proof.
  intros Hrows. revert col.
  induction Hrows as [|r rows Hr _ IH]; intros [|x col] [=]; [done|].
  simpl. f_equal; [|by apply IH].
  unfold cell_at. by rewrite list_lookup_insert_eq.
Qed.

Lemma cell_at_insert_ne i k rows col :
  k ≠ i → length col = length rows →
  cell_at k <$> zip_with (λ (r : row) x, <[i:=x]> r) rows col = cell_at k <$> rows.
Proof.
  intros Hne. revert col.
  induction rows as [|r rows IH]; intros [|x col] [=]; [done|].
  simpl. f_equal; [|by apply IH].
  unfold cell_at. by rewrite list_lookup_insert_ne.
Qed.

Lemma cell_at_snoc_eq n rows col :
  Forall (λ r : row, length r = n) rows → length col = length rows →
  cell_at n <$> zip_with (λ (r : row) x, r ++ [x]) rows col = col.
Proof.
  intros Hrows. revert col.
  induction Hrows as [|r rows Hr _ IH]; intros [|x col] [=]; [done|].
  simpl. f_equal; [|by apply IH].
  unfold cell_at. rewrite lookup_app_r by lia.
  by rewrite Hr, Nat.sub_diag.
Qed.

Lemma cell_at_snoc_ne k rows col :
  Forall (λ r : row, k < length r) rows → length col = length rows →
  cell_at k <$> zip_with (λ (r : row) x, r ++ [x]) rows col = cell_at k <$> rows.
Proof.
  intros Hrows. revert col.
  induction Hrows as [|r rows Hr _ IH]; intros [|x col] [=]; [done|].
  simpl. f_equal; [|by apply IH].
  unfold cell_at. by rewrite lookup_app_l.
Qed.
End column_update.

(** After [df[c] = col], [df[c]] is [col]. *)
Lemma getitem_setitem_eq df c col :
  frame_wf df → length col = len df →
  getitem (setitem df c col) c = ([], Ret col).
Proof.
  intros [_ Hrows] Hlen. unfold setitem, getitem.
  destruct (col_index c (columns df)) as [i|] eqn:Hi; simpl.
  - rewrite Hi. simpl. unfold mret, Py_ret. do 2 f_equal.
    apply cell_at_insert_eq; [|done].
    apply col_index_Some in Hi as [_ Hi].
    eapply Forall_impl; [exact Hrows|]. simpl. intros r ->. done.
  - apply col_index_None in Hi. rewrite col_index_app_new by done.
    unfold mret, Py_ret. do 2 f_equal. by apply cell_at_snoc_eq.
Qed.

(** [df[c] = col] leaves every other column as it was. *)
Lemma getitem_setitem_ne df c c' col :
  frame_wf df → length col = len df → c' ≠ c →
  getitem (setitem df c col) c' = getitem df c'.
Proof.
  intros [_ Hrows] Hlen Hne. unfold setitem, getitem.
  destruct (col_index c (columns df)) as [i|] eqn:Hi; simpl.
  - destruct (col_index c' (columns df)) as [k|] eqn:Hk; [|done].
    unfold mret, Py_ret. do 2 f_equal.
    apply cell_at_insert_ne; [|done].
    apply col_index_Some in Hi as [Hi _]. apply col_index_Some in Hk as [Hk _].
    intros ->. congruence.
  - rewrite col_index_app_other by done.
    destruct (col_index c' (columns df)) as [k|] eqn:Hk; [|done].
    unfold mret, Py_ret. do 2 f_equal.
    apply cell_at_snoc_ne; [|done].
    apply col_index_Some in Hk as [_ Hk].
    eapply Forall_impl; [exact Hrows|]. simpl. intros r ->. done.
Qed.

(** ** The technology group column *)

(** An entry whose round raises for every state ends the run in an
    exception. *)
Lemma raising_entry_ends_run config input m :
  m ∈ times_xl_maps config →
  (∀ st, ∃ e, (process_mapping input st m).2 = Raise e) →
  ∃ e, (produce_times_tables config input).2 = Raise e.
Proof.
  intros Hm Hstep.
  assert (∀ st, ∃ e, (foldM (process_mapping input) (times_xl_maps config) st).2 = Raise e)
    as Hfold.
  { induction (times_xl_maps config) as [|m' ms IH]; intros st.
    - by apply elem_of_nil in Hm.
    - rewrite foldM_cons. destruct (process_mapping input st m') as [l [st'|e]] eqn:E.
      + apply elem_of_cons in Hm as [->|Hm].
        * destruct (Hstep st) as [e He]. by rewrite E in He.
        * destruct (IH Hm st') as [e He]. exists e.
          apply bind_Raise. right. by exists st'.
      + exists e. apply bind_Raise. by left. }
  destruct (Hfold ([], ∅)) as [e He]. exists e.
  unfold produce_times_tables. apply bind_Raise. right. exists tt. split; [done|].
  apply bind_Raise. by left.
Qed.

(** C9 (amended). On a well-formed table: whenever ["techgroup"] is
    among the entry's [xl_cols] and the filtered table has a [techname]
    column, [produce_times_tables]
    sets the [techgroup] column to a copy of the [techname] column,
    overwriting a [techgroup] column that the source table supplies, and
    leaves every other column as it was. When ["techgroup"] is among
    [xl_cols] and the table has no [techname] column, the assignment
    raises [KeyError] on [techname], and the run of
    [produce_times_tables] ends in an exception. When ["techgroup"] is
    not among [xl_cols] the table is left unchanged. *)
Theorem set_techgroup_copies_techname m df :
  frame_wf df →
  ("techgroup" ∈ xl_cols m → "techname" ∈ columns df →
     ∃ df', set_techgroup m df = ([], Ret df') ∧
            getitem df' "techgroup" = getitem df "techname" ∧
            ∀ c, c ≠ "techgroup" → getitem df' c = getitem df c) ∧
  ("techgroup" ∈ xl_cols m → "techname" ∉ columns df →
     set_techgroup m df = ([], Raise (KeyError ["techname"])) ∧
     ∀ config input src,
       m ∈ times_xl_maps config →
       dict_get input (xl_name m) = Some src →
       (foldM (apply_filter m) (filter_rows m) src).2 = Ret df →
       ∃ e, (produce_times_tables config input).2 = Raise e) ∧
  ("techgroup" ∉ xl_cols m → set_techgroup m df = ([], Ret df)).
Proof.
  intros Hwf. unfold set_techgroup. split_and!.
  - intros Hin Htech. rewrite decide_True by done.
    destruct (col_index "techname" (columns df)) as [i|] eqn:Hi;
      [|by apply col_index_None in Hi].
    assert (getitem df "techname" = ([], Ret (cell_at i <$> values df))) as Hcol
      by (unfold getitem; by rewrite Hi).
    rewrite Hcol. eexists. split; [done|].
    assert (length (cell_at i <$> values df) = len df) as Hlen
      by by rewrite length_fmap.
    split.
    + by rewrite getitem_setitem_eq.
    + intros c Hc. by apply getitem_setitem_ne.
  - intros Hin Htech. rewrite decide_True by done.
    assert (set_techgroup m df = ([], Raise (KeyError ["techname"]))) as Hraise.
    { unfold set_techgroup. rewrite decide_True by done.
      by rewrite getitem_missing. }
    split; [by rewrite getitem_missing|].
    intros config input src Hm Hsrc Hdf.
    apply (raising_entry_ends_run config input m Hm).
    intros [result used]. exists (KeyError ["techname"]).
    unfold process_mapping. rewrite Hsrc.
    apply bind_Raise. left. unfold filter_table.
    apply bind_Raise. right. exists df. split; [done|]. by rewrite Hraise.
  - intros Hnin. by rewrite decide_False.
Qed.

Lemma set_techgroup_copies_techname_witness :
  (∃ df', set_techgroup ex_mapping_groups ex_groups = ([], Ret df') ∧
          getitem df' "techgroup" = getitem ex_groups "techname") ∧
  set_techgroup ex_mapping_groups ex_no_value = ([], Raise (KeyError ["techname"])).
Proof.
  split.
  - destruct (set_techgroup_copies_techname ex_mapping_groups ex_groups)
      as [Hcopy _].
    + split; [|by repeat constructor].
      apply NoDup_cons. split; [|apply NoDup_singleton].
      by intros [=]%list_elem_of_singleton.
    + destruct Hcopy as (df' & Hret & Hgroup & _).
      * simpl. right. left.
      * simpl. left.
      * by exists df'.
  - destruct (set_techgroup_copies_techname ex_mapping_groups ex_no_value)
      as (_ & Hraise & _).
    + split; [|by repeat constructor].
      apply NoDup_cons. split; [|apply NoDup_singleton].
      by intros [=]%list_elem_of_singleton.
    + apply Hraise.
      * simpl. right. left.
      * simpl. intros H.
        repeat (apply elem_of_cons in H as [[=]|H]). by apply elem_of_nil in H.
Defined.

(** A source table that supplies its own [techgroup] column does not
    keep it: the stored groups are the technology names, not [G1], [G2]. *)
Lemma techgroup_of_source_overwritten :
  ∃ out,
    (produce_times_tables {| times_xl_maps := [ex_mapping_groups]; dd_table_order := [] |}
       [("techs", ex_groups)]).2 = Ret [("PRC_GRP", out)] ∧
    "techgroup" ∈ columns ex_groups ∧
    (getitem out "GROUP").2 = Ret [Str "T1"; Str "T2"] ∧
    (getitem out "GROUP").2 ≠ (getitem ex_groups "techgroup").2.
Proof.
  exists {| columns := ["TECH"; "GROUP"];
            values := [[Str "T1"; Str "T1"]; [Str "T2"; Str "T2"]] |}.
  split_and!; [vm_compute; reflexivity|right; left|vm_compute; reflexivity|].
  vm_compute. intros [=].
Qed.

(** ** The verifier *)

Lemma bind_eq {A B} (m : Py A) (f : A → Py B) l1 a l2 r :
  m = (l1, Ret a) → f a = (l2, r) → m ≫= f = (l1 ++ l2, r).
Proof. intros -> Hf. unfold mbind, Py_bind. by rewrite Hf. Qed.

Lemma sorted_insert_perm {A} (le : A → A → bool) x l : sorted_insert le x l ≡ₚ x :: l.
Proof.
  induction l as [|y l IH]; simpl; [done|].
  destruct (le x y); [done|]. rewrite IH. apply Permutation_swap.
Qed.

Lemma sorted_by_perm {A} (le : A → A → bool) l : sorted_by le l ≡ₚ l.
Proof.
  induction l as [|x l IH]; simpl; [done|].
  rewrite sorted_insert_perm. by rewrite IH.
Qed.

(** Ties keep the order of the dict; longer tables come first. *)
Example by_len_desc_stable (r : row) :
  (by_len_desc [("a", mkDataFrame [] [r]); ("b", mkDataFrame [] [r; r]);
                ("c", mkDataFrame [] [r])]).*1 = ["b"; "a"; "c"].
Proof. reflexivity. Qed.

Lemma sorted_by_Forall2 {A} (R : A → A → Prop) (le : A → A → bool) l l' :
  (∀ a a' b b', R a a' → R b b' → le a b = le a' b') →
  Forall2 R l l' → Forall2 R (sorted_by le l) (sorted_by le l').
Proof.
  intros Hle. induction 1 as [|x x' l l' Hx _ IH]; simpl; [constructor|].
  induction IH as [|y y' k k' Hy Hk IHk]; simpl.
  - by repeat constructor.
  - rewrite (Hle x x' y y') by done.
    destruct (le x' y'); by repeat constructor.
Qed.

Lemma total_rows_perm store store' : store ≡ₚ store' → total_rows store = total_rows store'.
Proof. unfold total_rows. by intros ->. Qed.

Lemma total_rows_cons name df store :
  total_rows ((name, df) :: store) = len df + total_rows store.
Proof. done. Qed.

(** One round of the loop always returns, and adds the rows of the
    ground-truth table to [total_gt_rows]. *)
Lemma compare_table_Ret data g c a name gt_table :
  ∃ log c' a', compare_table data (g, c, a) (name, gt_table)
                 = (log, Ret (g + len gt_table, c', a')).
Proof.
  unfold compare_table.
  destruct (dict_get data name) as [data_table|]; [|by eauto].
  destruct (decide (_ ≠ _)); [by eauto|].
  repeat match goal with
         | |- context [decide ?P] => destruct (decide P)
         end; by eauto.
Qed.

Lemma compare_tables_Ret data l g c a :
  ∃ log c' a', foldM (compare_table data) l (g, c, a)
                 = (log, Ret (g + total_rows l, c', a')).
Proof.
  revert g c a. induction l as [|[name t] l IH]; intros g c a.
  - exists [], c, a. unfold total_rows. simpl. by rewrite Nat.add_0_r.
  - destruct (compare_table_Ret data g c a name t) as (l1 & c1 & a1 & H1).
    destruct (IH (g + len t) c1 a1) as (l2 & c2 & a2 & H2).
    exists (l1 ++ l2), c2, a2. rewrite foldM_cons.
    rewrite total_rows_cons, Nat.add_assoc. by eapply bind_eq.
Qed.

Lemma compare_eq data ground_truth log g c a :
  foldM (compare_table data) (by_len_desc ground_truth)
        (0, 0, additional_table_rows data ground_truth) = (log, Ret (g, c, a)) →
  compare data ground_truth =
    if decide (g = 0)
    then (compare_preamble data ground_truth ++ log, Raise ZeroDivisionError)
    else (compare_preamble data ground_truth ++ log
            ++ [Summary (Z.of_nat c # Pos.of_nat g) c g a], Ret tt).
Proof.
  intros Hfold. unfold compare, compare_preamble, truediv.
  fold (additional_table_rows data ground_truth).
  fold (total_rows ground_truth).
  unfold mbind, Py_bind, print, mret, Py_ret, raise. simpl.
  do 2 (case_decide; simpl); rewrite Hfold; simpl;
    case_decide; simpl; by rewrite ?app_nil_r, <-?app_assoc.
Qed.

(** C10. Whenever the ground truth holds no row at all, [compare] ends in
    [ZeroDivisionError], raised by the quotient of its summary; with at
    least one ground-truth row it returns after printing the summary. *)
Theorem compare_zero_division data ground_truth :
  (total_rows ground_truth = 0 →
     (compare data ground_truth).2 = Raise ZeroDivisionError) ∧
  (total_rows ground_truth ≠ 0 →
     ∃ log ratio correct additional,
       compare data ground_truth
         = (log ++ [Summary ratio correct (total_rows ground_truth) additional], Ret tt)).
Proof.
  destruct (compare_tables_Ret data (by_len_desc ground_truth) 0 0
              (additional_table_rows data ground_truth)) as (l & c & a & Hfold).
  rewrite (total_rows_perm _ ground_truth) in Hfold by apply sorted_by_perm.
  simpl in Hfold. apply compare_eq in Hfold. rewrite Hfold. split.
  - intros Hzero. by rewrite decide_True.
  - intros Hpos. rewrite decide_False by done.
    eexists _, _, c, a. by rewrite app_assoc.
Qed.

Lemma compare_zero_division_witness :
  (compare [] [("ACT", {| columns := ["REGION"]; values := [] |})]).2
    = Raise ZeroDivisionError ∧
  ∃ log ratio correct additional,
    compare [("ACT", ex_output)] [("ACT", ex_output)]
      = (log ++ [Summary ratio correct 1 additional], Ret tt).
Proof.
  split.
  - apply (proj1 (compare_zero_division []
                    [("ACT", {| columns := ["REGION"]; values := [] |})])).
    reflexivity.
  - apply (proj2 (compare_zero_division [("ACT", ex_output)] [("ACT", ex_output)])).
    vm_compute. intros [=].
Defined.

(** ** Row order of the ground truth *)

Lemma table_permuted_len a b : table_permuted a b → len a.2 = len b.2.
Proof. intros (_ & _ & Hperm). unfold len. by rewrite Hperm. Qed.

Lemma table_permuted_row_set a b : table_permuted a b → row_set a.2 = row_set b.2.
Proof. intros (_ & _ & Hperm). unfold row_set. by apply list_to_set_perm_L. Qed.

Lemma compare_table_permuted data st a b :
  table_permuted a b → compare_table data st a = compare_table data st b.
Proof.
  intros Hab. destruct st as [[g c] ad], a as [name t], b as [name' t'].
  pose proof (table_permuted_len _ _ Hab) as Hlen.
  pose proof (table_permuted_row_set _ _ Hab) as Hset.
  destruct Hab as (Hname & Hcols & _). simpl in *. subst name'.
  unfold compare_table. by rewrite Hlen, Hcols, Hset.
Qed.

Lemma compare_tables_permuted data l l' st :
  Forall2 table_permuted l l' →
  foldM (compare_table data) l st = foldM (compare_table data) l' st.
Proof.
  intros Hl. revert st. induction Hl as [|a b l l' Hab _ IH]; intros st; [done|].
  rewrite !foldM_cons. rewrite (compare_table_permuted _ _ a b) by done.
  unfold mbind, Py_bind.
  destruct (compare_table data st b) as [lg [st'|e]]; [|done]. by rewrite IH.
Qed.

Lemma rows_permuted_keys gt gt' : rows_permuted gt gt' → gt.*1 = gt'.*1.
Proof.
  induction 1 as [|a b l l' (Hname & _) _ IH]; [done|].
  rewrite !fmap_cons. by rewrite Hname, IH.
Qed.

Lemma rows_permuted_total_rows gt gt' : rows_permuted gt gt' → total_rows gt = total_rows gt'.
Proof.
  unfold total_rows. induction 1 as [|a b l l' Hab _ IH]; [done|].
  rewrite !fmap_cons. simpl. rewrite IH. by rewrite (table_permuted_len a b).
Qed.

Lemma rows_permuted_dict_get gt gt' x :
  rows_permuted gt gt' →
  from_option len 0 (dict_get gt x) = from_option len 0 (dict_get gt' x).
Proof.
  induction 1 as [|[n t] [n' t'] l l' Hab _ IH]; [done|].
  pose proof (table_permuted_len _ _ Hab) as Hlen.
  destruct Hab as (Hname & _). simpl in *. subst n'.
  by destruct (decide (n = x)).
Qed.

Lemma rows_permuted_sorted gt gt' :
  rows_permuted gt gt' → rows_permuted (by_len_desc gt) (by_len_desc gt').
Proof.
  apply sorted_by_Forall2. intros a a' b b' Ha Hb.
  by rewrite (table_permuted_len a a'), (table_permuted_len b b').
Qed.

(** C8. Permuting the rows of ground-truth tables changes nothing in what
    [compare] reports: the rows are compared as sets of tuples, so the
    correct, missing and additional counts (and every other printed
    figure, file and the final outcome) are the same. *)
Theorem compare_row_order data ground_truth ground_truth' :
  rows_permuted ground_truth ground_truth' →
  compare data ground_truth = compare data ground_truth'.
Proof.
  intros Hperm.
  destruct (compare_tables_Ret data (by_len_desc ground_truth) 0 0
              (additional_table_rows data ground_truth)) as (l & c & a & Hfold).
  assert (dict_keys ground_truth = dict_keys ground_truth') as Hkeys.
  { unfold dict_keys. by rewrite (rows_permuted_keys _ _ Hperm). }
  assert (additional_table_rows data ground_truth
          = additional_table_rows data ground_truth') as Hadd.
  { unfold additional_table_rows. by rewrite Hkeys. }
  assert (compare_preamble data ground_truth = compare_preamble data ground_truth')
    as Hpre.
  { unfold compare_preamble, with_row_counts. rewrite <-Hkeys.
    rewrite <-(rows_permuted_total_rows _ _ Hperm).
    rewrite <-(Forall2_length _ _ _ Hperm).
    do 2 f_equal. case_decide; [|done]. do 2 f_equal.
    apply list_fmap_ext. intros _ x _.
    by rewrite (rows_permuted_dict_get _ _ x Hperm). }
  rewrite (compare_eq _ _ _ _ _ _ Hfold).
  rewrite (compare_tables_permuted _ _ (by_len_desc ground_truth')), Hadd in Hfold
    by by apply rows_permuted_sorted.
  rewrite (compare_eq _ _ _ _ _ _ Hfold).
  by rewrite Hpre.
Qed.

Lemma compare_row_order_witness :
  compare [("techs", ex_techs)] [("techs", ex_techs)]
    = compare [("techs", ex_techs)] [("techs", ex_techs_reversed)].
Proof.
  apply compare_row_order. constructor; [|constructor].
  split_and!; [reflexivity..|]. simpl.
  rewrite <-(reverse_Permutation (values ex_techs)). reflexivity.
Defined.

(** ** A store compared with itself *)

Lemma undotted_fmap cols : undotted cols → split_dot_head <$> cols = cols.
Proof.
  induction 1 as [|c cols Hc _ IH]; [done|].
  rewrite fmap_cons. by rewrite Hc, IH.
Qed.

Lemma gset_difference_diag `{Countable A} (X : gset A) : X ∖ X = ∅.
Proof. apply difference_diag_L. Qed.

Lemma gset_intersection_diag `{Countable A} (X : gset A) : X ∩ X = X.
Proof. apply set_eq. intros x. rewrite elem_of_intersection. tauto. Qed.

Lemma compare_table_self data g c a name df :
  dict_get data name = Some df → plain_table df →
  compare_table data (g, c, a) (name, df) = ([], Ret (g + len df, c + len df, a)).
Proof.
  intros Hget [Hcols Hrows]. unfold compare_table. rewrite Hget.
  rewrite (undotted_fmap _ Hcols).
  rewrite decide_False by (by intros []). cbv zeta.
  rewrite (gset_difference_diag (row_set df)), (gset_intersection_diag (row_set df)).
  rewrite size_empty.
  rewrite (decide_False (P := 0 ≠ 0 ∨ 0 ≠ 0)) by (intros [H|H]; by apply H).
  rewrite !(decide_False (P := 0 ≠ 0)) by (intros H; by apply H).
  unfold row_set. rewrite size_list_to_set by done.
  unfold mbind, Py_bind, mret, Py_ret. simpl. by rewrite Nat.add_0_r.
Qed.

Lemma compare_tables_self data l g c a :
  Forall (λ kv, dict_get data kv.1 = Some kv.2 ∧ plain_table kv.2) l →
  foldM (compare_table data) l (g, c, a)
    = ([], Ret (g + total_rows l, c + total_rows l, a)).
Proof.
  intros Hl. revert g c.
  induction Hl as [|[name df] l [Hget Hplain] _ IH]; intros g c.
  - unfold total_rows. simpl. by rewrite !Nat.add_0_r.
  - rewrite foldM_cons, total_rows_cons, !Nat.add_assoc.
    eapply (bind_eq _ _ [] _ []); [by apply compare_table_self|apply IH].
Qed.

Lemma ratio_one r : r ≠ 0 → (Z.of_nat r # Pos.of_nat r == 1)%Q.
Proof.
  intros Hr. unfold Qeq. simpl.
  rewrite <-(positive_nat_Z (Pos.of_nat r)), Nat2Pos.id by done. lia.
Qed.

(** A store whose tables are plain and which holds at least one row,
    compared with itself: nothing is reported but the totals. *)
Lemma compare_self data :
  dict_wf data →
  Forall (λ kv, plain_table kv.2) data →
  total_rows data ≠ 0 →
  compare data data
    = ([GroundTruthInfo (length data) (total_rows data);
        Summary (Z.of_nat (total_rows data) # Pos.of_nat (total_rows data))
                (total_rows data) (total_rows data) 0],
       Ret tt).
Proof.
  intros Hwf Hplain Hrows.
  assert (additional_table_rows data data = 0) as Hadd.
  { unfold additional_table_rows.
    by rewrite gset_difference_diag, elements_empty. }
  assert (foldM (compare_table data) (by_len_desc data)
            (0, 0, additional_table_rows data data)
          = ([], Ret (total_rows data, total_rows data, 0))) as Hfold.
  { rewrite Hadd, compare_tables_self.
    - by rewrite (total_rows_perm _ data) by apply sorted_by_perm.
    - rewrite Forall_forall in Hplain. apply Forall_forall.
      intros [name df] Hin. unfold by_len_desc in Hin.
      rewrite sorted_by_perm in Hin. simpl.
      split; [by apply dict_get_elem_of|]. by apply (Hplain _ Hin). }
  rewrite (compare_eq _ _ _ _ _ _ Hfold). rewrite decide_False by done.
  unfold compare_preamble.
  rewrite gset_difference_diag, size_empty. by rewrite decide_False by lia.
Qed.

(** ** Well-formed frames through the canonicalizer *)

Section select_mask.
Context {A : Type}.
Implicit Types (mask : list bool) (l : list A).

Lemma elem_of_select_mask mask l x : x ∈ select_mask mask l → x ∈ l.
Proof.
  revert l. induction mask as [|b mask IH]; intros [|y l]; simpl;
    try by intros ?%elem_of_nil.
  destruct b.
  - intros [->|?]%elem_of_cons; [by left|right; by apply IH].
  - intros ?. right. by apply IH.
Qed.

Lemma select_mask_Forall (P : A → Prop) mask l :
  Forall P l → Forall P (select_mask mask l).
Proof.
  rewrite !Forall_forall. intros Hl x Hx. apply Hl.
  by eapply elem_of_select_mask.
Qed.

Lemma select_mask_NoDup mask l : NoDup l → NoDup (select_mask mask l).
Proof.
  intros Hl. revert mask.
  induction Hl as [|x l Hx _ IH]; intros [|b mask]; simpl; try constructor.
  destruct b; [|by apply IH].
  constructor; [|by apply IH]. intros ?%elem_of_select_mask. done.
Qed.

Lemma select_mask_length {B} mask l (k : list B) :
  length l = length k → length (select_mask mask l) = length (select_mask mask k).
Proof.
  revert l k. induction mask as [|b mask IH]; intros [|x l] [|y k] [=]; simpl;
    try done.
  destruct b; simpl; [f_equal|]; by apply IH.
Qed.
End select_mask.

Lemma loc_rows_wf df i : frame_wf df → frame_wf (loc_rows df i).
Proof. intros [Hcols Hrows]. split; [done|]. by apply select_mask_Forall. Qed.

Lemma setitem_wf df c col : frame_wf df → frame_wf (setitem df c col).
Proof.
  intros [Hcols Hrows]. unfold setitem.
  destruct (col_index c (columns df)) as [i|] eqn:Hi; split; simpl.
  - done.
  - clear Hi. revert col. induction Hrows as [|r rows Hr _ IH]; intros [|x col];
      simpl; constructor; [by rewrite length_insert|by apply IH].
  - apply col_index_None in Hi. apply NoDup_app. split_and!; [done| |apply NoDup_singleton].
    by intros x ? ->%list_elem_of_singleton.
  - clear Hi. revert col. induction Hrows as [|r rows Hr _ IH]; intros [|x col];
      simpl; constructor; [|by apply IH].
    rewrite !length_app. simpl. by rewrite Hr.
Qed.

Lemma apply_filter_wf m df item df' :
  frame_wf df → (apply_filter m df item).2 = Ret df' → frame_wf df'.
Proof.
  destruct item as [fc fv]. unfold apply_filter.
  intros Hwf (_ & _ & (col & _ & [= <-])%bind_Ret)%bind_Ret. by apply loc_rows_wf.
Qed.

Lemma set_techgroup_wf m df df' :
  frame_wf df → (set_techgroup m df).2 = Ret df' → frame_wf df'.
Proof.
  unfold set_techgroup. case_decide.
  - intros Hwf (col & _ & [= <-])%bind_Ret. by apply setitem_wf.
  - by intros Hwf [= <-].
Qed.

Lemma filter_table_wf m src df :
  frame_wf src → (filter_table m src).2 = Ret df → frame_wf df.
Proof.
  unfold filter_table. intros Hwf (df1 & Hfold & Htg)%bind_Ret.
  eapply set_techgroup_wf; [|done].
  revert Hfold. apply (foldM_Ret_inv _ frame_wf); [|done].
  intros ??? Hb _. by apply apply_filter_wf.
Qed.

Lemma copy_column_wf df item df' :
  frame_wf df → (copy_column df item).2 = Ret df' → frame_wf df'.
Proof.
  destruct item as [tc xc]. unfold copy_column.
  intros Hwf (col & _ & [= <-])%bind_Ret. by apply setitem_wf.
Qed.

Lemma drop_wf df labels : frame_wf df → frame_wf (drop df labels).
Proof.
  intros [Hcols Hrows]. unfold drop. split; simpl.
  - by apply select_mask_NoDup.
  - apply Forall_fmap. eapply Forall_impl; [exact Hrows|].
    simpl. intros r Hr. by apply select_mask_length.
Qed.

(** After [drop], only columns of [times_cols] are left. *)
Lemma drop_columns df (keep : list string) :
  Forall (λ c, c ∈ keep)
    (columns (drop df (filter (λ x, x ∉ keep) (columns df)))).
Proof.
  unfold drop. simpl.
  set (labels := filter _ _).
  assert (∀ c, c ∈ columns df → c ∉ labels → c ∈ keep) as Hkeep.
  { intros c Hc Hn. destruct (decide (c ∈ keep)) as [|Hk]; [done|].
    destruct Hn. by apply list_elem_of_filter. }
  clearbody labels.
  induction (columns df) as [|c cols IH]; simpl; [constructor|].
  case_bool_decide; [constructor|].
  - apply Hkeep; [by left|done].
  - apply IH. intros c' Hc'. apply Hkeep. by right.
  - apply IH. intros c' Hc'. apply Hkeep. by right.
Qed.

Lemma elem_of_drop_duplicates_rows (l : list row) r :
  r ∈ drop_duplicates_rows l → r ∈ l.
Proof.
  induction l as [|x l IH]; simpl; [done|].
  intros [->|[_ ?]%list_elem_of_filter]%elem_of_cons; [by left|right; by apply IH].
Qed.

Lemma drop_duplicates_rows_NoDup (l : list row) : NoDup (drop_duplicates_rows l).
Proof.
  induction l as [|x l IH]; simpl; constructor.
  - by intros [? _]%list_elem_of_filter.
  - by apply NoDup_filter.
Qed.

Lemma drop_duplicates_wf df : frame_wf df → frame_wf (drop_duplicates df).
Proof.
  intros [Hcols Hrows]. split; [done|]. simpl.
  rewrite Forall_forall in Hrows. apply Forall_forall.
  intros r Hr%elem_of_drop_duplicates_rows. by apply Hrows.
Qed.

Lemma fmap_eq_Forall {A B} (f g : A → B) (l : list A) :
  f <$> l = g <$> l → Forall (λ x, f x = g x) l.
Proof.
  induction l as [|x l IH]; [constructor|].
  rewrite !fmap_cons. intros [= Hx Hl]. constructor; [done|by apply IH].
Qed.

(** Picking all the columns of a frame, in any order and any number of
    times, loses nothing of a row. *)
Lemma pick_columns_inj (cols sel : list string) (r r' : row) :
  NoDup cols → Forall (λ c, c ∈ sel) cols →
  length r = length cols → length r' = length cols →
  (λ j, cell_at j r) <$> omap (λ c, col_index c cols) sel
    = (λ j, cell_at j r') <$> omap (λ c, col_index c cols) sel →
  r = r'.
Proof.
  intros Hnd Hsel Hr Hr' Heq%fmap_eq_Forall.
  rewrite Forall_forall in Heq. rewrite Forall_forall in Hsel.
  apply list_eq. intros j.
  destruct (decide (j < length cols)) as [Hj|Hj].
  - destruct (lookup_lt_is_Some_2 cols j Hj) as [c Hc].
    assert (col_index c cols = Some j) as Hidx.
    { destruct (col_index c cols) as [j'|] eqn:E.
      - apply col_index_Some in E as [E _]. f_equal. by eapply NoDup_lookup.
      - apply col_index_None in E. destruct E. by eapply list_elem_of_lookup_2. }
    assert (cell_at j r = cell_at j r') as Hcell.
    { apply Heq. apply list_elem_of_omap. exists c. split; [|done].
      apply Hsel. by eapply list_elem_of_lookup_2. }
    unfold cell_at in Hcell.
    destruct (lookup_lt_is_Some_2 r j) as [x Hx]; [lia|].
    destruct (lookup_lt_is_Some_2 r' j) as [x' Hx']; [lia|].
    rewrite Hx, Hx' in Hcell. simpl in Hcell. by rewrite Hx, Hx', Hcell.
  - rewrite !lookup_ge_None_2 by lia. done.
Qed.

Lemma loc_NoDup df i cols out :
  frame_wf df → Forall (λ c, c ∈ cols) (columns df) → NoDup (values df) →
  (loc df i cols).2 = Ret out → NoDup (values out).
Proof.
  intros [Hcols Hrows] Hall Hnd. unfold loc.
  destruct (filter _ cols); [|done]. intros [= <-]. simpl.
  apply NoDup_fmap_2_strong; [|by apply select_mask_NoDup].
  rewrite Forall_forall in Hrows.
  intros r r' Hr%elem_of_select_mask Hr'%elem_of_select_mask Heq.
  eapply pick_columns_inj; [done|done|by apply Hrows..|done].
Qed.

(** The rows of a projected table are pairwise distinct. *)
Lemma project_table_NoDup m df out :
  frame_wf df → (project_table m df).2 = Ret out → NoDup (values out).
Proof.
  unfold project_table.
  intros Hwf (df1 & Hfold & (i & _ & Hloc)%bind_Ret)%bind_Ret.
  assert (frame_wf df1) as Hwf1.
  { revert Hfold. apply (foldM_Ret_inv _ frame_wf); [|done].
    intros ??? Hb _. by apply copy_column_wf. }
  eapply loc_NoDup; [| | |exact Hloc].
  - by apply drop_duplicates_wf, drop_wf.
  - apply drop_columns.
  - apply drop_duplicates_rows_NoDup.
Qed.

(** C7 (amended). For every store that [produce_times_tables] returns from
    well-formed input tables, that holds at least one table and whose
    column names contain no dot, [compare] with a ground
    truth equal to the store reports no missing table, no header
    mismatch, no missing row and no additional row: it prints only the
    totals, with as many correct rows as ground-truth rows, a ratio of 1
    and 0 additional rows. *)
Theorem compare_produced_with_itself config input data :
  Forall (λ kv, frame_wf kv.2) input →
  (produce_times_tables config input).2 = Ret data →
  Forall (λ kv, undotted (columns kv.2)) data →
  data ≠ [] →
  ∃ ratio,
    compare data data
      = ([GroundTruthInfo (length data) (total_rows data);
          Summary ratio (total_rows data) (total_rows data) 0], Ret tt) ∧
    (ratio == 1)%Q.
Proof.
  intros Hinput [Hwf Hall]%produce_times_tables_items Hund Hne.
  rewrite Forall_forall in Hinput.
  assert (Forall (λ kv : string * DataFrame, plain_table kv.2 ∧ len kv.2 ≠ 0) data)
    as Hplain.
  { rewrite Forall_forall in Hall. rewrite Forall_forall in Hund.
    apply Forall_forall. intros [name out] Hin.
    destruct (Hall _ Hin) as (m & Hm & _ & src & df & Hsrc & Hdf & _ & Hout & Hlen).
    simpl in *. split; [split|done].
    - by apply (Hund _ Hin).
    - eapply project_table_NoDup; [|exact Hout].
      eapply filter_table_wf; [|exact Hdf].
      apply (Hinput (xl_name m, src)). by apply dict_get_Some. }
  assert (total_rows data ≠ 0) as Hrows.
  { destruct Hplain as [|[name out] data [_ Hlen] _]; [done|].
    rewrite total_rows_cons. simpl in Hlen. lia. }
  eexists. split; [|by apply ratio_one].
  apply compare_self; [done| |done].
  eapply Forall_impl; [exact Hplain|]. by intros ? [? _].
Qed.

Lemma compare_produced_with_itself_witness :
  ∃ ratio,
    compare [("ACT", ex_output)] [("ACT", ex_output)]
      = ([GroundTruthInfo 1 1; Summary ratio 1 1 0], Ret tt) ∧
    (ratio == 1)%Q.
Proof.
  apply (compare_produced_with_itself (ex_config "ACT") [("techs", ex_techs)]).
  - repeat constructor; simpl; intros H;
      repeat (apply elem_of_cons in H as [[=]|H]); by apply elem_of_nil in H.
  - vm_compute. reflexivity.
  - repeat constructor.
  - intros [=].
Defined.

(** A produced store compared with itself is not always reported as
    fully correct: a dotted column name makes [compare] report a header
    mismatch and 0 correct rows out of 3, and the empty store makes it
    raise [ZeroDivisionError]. *)
Lemma compare_produced_with_itself_fails :
  (produce_times_tables {| times_xl_maps := [ex_mapping_dotted]; dd_table_order := [] |}
     [("techs", ex_techs)]).2 = Ret [("ACT", ex_dotted)] ∧
  compare [("ACT", ex_dotted)] [("ACT", ex_dotted)]
    = ([GroundTruthInfo 1 3; HeaderIncorrect "ACT" ["TECH.1"] ["TECH"];
        Summary (0 # 3) 0 3 0], Ret tt) ∧
  ¬ (0 # 3 == 1)%Q ∧
  (produce_times_tables {| times_xl_maps := []; dd_table_order := [] |} []).2 = Ret [] ∧
  (compare [] []).2 = Raise ZeroDivisionError.
Proof. split_and!; try (vm_compute; reflexivity). intros [=]. Qed.

(** * Further properties *)

(** Goals on concrete lists of labels: [NoDup], and membership. *)
Ltac solve_NoDup :=
  repeat constructor; simpl;
  let H := fresh in
  intros H; repeat (apply elem_of_cons in H as [[=]|H]); by apply elem_of_nil in H.

(** Well-formedness of a concrete frame. *)
Ltac solve_frame_wf := split; simpl; [solve_NoDup|by repeat constructor].

(** ** The row filters *)

Lemma select_mask_filter {A} (P : A → Prop) `{∀ x, Decision (P x)} (l : list A) :
  select_mask ((λ x, bool_decide (P x)) <$> l) l = filter P l.
Proof.
  induction l as [|x l IH]; [done|].
  rewrite fmap_cons. simpl. rewrite IH.
  case_bool_decide; [by rewrite filter_cons_True|by rewrite filter_cons_False].
Qed.

Lemma isin_cell_matches val c :
  isin {[ lower val ]} (str_lower c) = bool_decide (cell_matches val c).
Proof.
  destruct c as [s|]; simpl; [|done].
  apply bool_decide_ext. by rewrite elem_of_singleton.
Qed.

Lemma apply_filter_rows m df item :
  item.1 ∈ columns df →
  apply_filter m df item
    = ([], Ret {| columns := columns df;
                  values := filter (λ r, row_matches (columns df) r item) (values df) |}).
Proof.
  destruct item as [fc fv]. simpl. intros Hfc. unfold apply_filter.
  rewrite decide_True by done.
  destruct (col_index fc (columns df)) as [i|] eqn:Hi;
    [|by apply col_index_None in Hi].
  unfold getitem. rewrite Hi.
  unfold mbind, Py_bind, mret, Py_ret, loc_rows. simpl. do 3 f_equal.
  rewrite <-list_fmap_compose.
  rewrite <-(select_mask_filter (λ r, row_matches (columns df) r (fc, fv))).
  f_equal. apply list_fmap_ext. intros _ r _. simpl.
  rewrite isin_cell_matches. unfold row_matches, row_attr. simpl. by rewrite Hi.
Qed.

Lemma filter_all {A} (P : A → Prop) `{∀ x, Decision (P x)} (l : list A) :
  (∀ x, P x) → filter P l = l.
Proof.
  intros HP. induction l as [|x l IH]; [done|].
  rewrite filter_cons_True by done. by rewrite IH.
Qed.

Lemma filter_none {A} (P : A → Prop) `{∀ x, Decision (P x)} (l : list A) :
  (∀ x, x ∈ l → ¬ P x) → filter P l = [].
Proof.
  induction l as [|x l IH]; intros HP; [done|].
  rewrite filter_cons_False by (apply HP; by left).
  apply IH. intros y Hy. apply HP. by right.
Qed.

(** The loop over [filter_rows] in closed form. *)
Lemma apply_filters_filter m fr df :
  Forall (λ item, item.1 ∈ columns df) fr →
  foldM (apply_filter m) fr df
    = ([], Ret {| columns := columns df;
                  values := filter (λ r, Forall (row_matches (columns df) r) fr)
                                   (values df) |}).
Proof.
  revert df. induction fr as [|item fr IH]; intros df Hfr.
  - simpl. unfold mret, Py_ret. destruct df as [cols rows]. simpl.
    rewrite filter_all; [done|]. intros. constructor.
  - apply Forall_cons in Hfr as [Hitem Hfr]. rewrite foldM_cons.
    eapply (bind_eq _ _ [] _ []); [by apply apply_filter_rows|].
    rewrite IH by done. simpl. do 3 f_equal.
    rewrite list_filter_filter. apply list_filter_iff.
    intros r. rewrite Forall_cons. tauto.
Qed.

(** X2. On a well-formed table that has every filter column, when the
    filter values and the cells under the filter columns are ASCII
    strings (or missing), the loop over [filter_rows] prints nothing and
    keeps, in their order, exactly the rows that match every constraint
    up to the case of letters; a missing cell matches nothing; the
    columns are left as they are. *)
Theorem apply_filters_rows m fr df :
  frame_wf df →
  ascii_filters fr df →
  Forall (λ item, item.1 ∈ columns df) fr →
  foldM (apply_filter m) fr df
    = ([], Ret {| columns := columns df;
                  values := filter (λ r, Forall (row_matches (columns df) r) fr)
                                   (values df) |}).
Proof. intros _ _. apply apply_filters_filter. Qed.

Lemma apply_filters_rows_witness :
  foldM (apply_filter (ex_mapping "ACT")) [("region", "eu")] ex_techs
    = ([], Ret {| columns := ["region"; "techname"; "value"];
                  values := [[Str "EU"; Str "T1"; Str "5"];
                             [Str "EU"; Str "T3"; Str "None"]] |}).
Proof.
  rewrite (apply_filters_rows (ex_mapping "ACT") [("region", "eu")] ex_techs).
  - vm_compute. reflexivity.
  - solve_frame_wf.
  - repeat constructor.
  - repeat constructor.
Defined.

(** ** Runs that cannot raise *)

Lemma getitem_is_Ret df c : c ∈ columns df → ∃ col, (getitem df c).2 = Ret col.
Proof.
  intros Hc. destruct (col_index c (columns df)) as [i|] eqn:Hi.
  - eexists. apply getitem_Ret. by exists i.
  - by apply col_index_None in Hi.
Qed.

Lemma setitem_columns df c col x :
  x ∈ columns (setitem df c col) ↔ x ∈ columns df ∨ x = c.
Proof.
  unfold setitem. destruct (col_index c (columns df)) as [i|] eqn:Hi; simpl.
  - split; [by left|]. intros [?|Hx]; [done|]. subst x.
    apply col_index_Some in Hi as [Hi _]. by eapply list_elem_of_lookup_2.
  - rewrite elem_of_app, list_elem_of_singleton. done.
Qed.

Lemma copy_columns_Ret cm df :
  Forall (λ kx, kx.2 ∈ columns df) cm →
  ∃ df1, (foldM copy_column cm df).2 = Ret df1 ∧
         ∀ c, c ∈ columns df1 ↔ c ∈ columns df ∨ c ∈ cm.*1.
Proof.
  revert df. induction cm as [|[k x] cm IH]; intros df Hcm.
  - exists df. split; [done|]. intros c. rewrite fmap_nil, elem_of_nil. tauto.
  - apply Forall_cons in Hcm as [Hx Hcm]. simpl in Hx.
    destruct (getitem_is_Ret df x Hx) as [col Hcol].
    destruct (IH (setitem df k col)) as (df1 & Hdf1 & Hcols).
    { eapply Forall_impl; [exact Hcm|]. simpl. intros kx ?.
      apply setitem_columns. by left. }
    exists df1. split.
    + rewrite foldM_cons. apply bind_Ret. exists (setitem df k col). split; [|done].
      unfold copy_column. apply bind_Ret. by exists col.
    + intros c. rewrite Hcols, setitem_columns, fmap_cons, elem_of_cons. simpl. tauto.
Qed.

Lemma drop_columns_elem df (keep : list string) c :
  c ∈ columns (drop df (filter (λ x, x ∉ keep) (columns df)))
  ↔ c ∈ columns df ∧ c ∈ keep.
Proof.
  unfold drop. simpl. rewrite select_mask_filter.
  rewrite !list_elem_of_filter. split.
  - intros [Hn Hc]. split; [done|].
    destruct (decide (c ∈ keep)) as [|Hk]; [done|]. by destruct Hn.
  - intros [Hc Hk]. split; [|done]. by intros [? _].
Qed.

Lemma project_table_returns m df :
  Forall (λ x, x ∈ columns df) (col_map m).*2 →
  times_cols m ≠ [] →
  Forall (λ c, c ∈ (col_map m).*1) (times_cols m) →
  ∃ out, (project_table m df).2 = Ret out.
Proof.
  intros Hsrc Hne Hkeys.
  destruct (copy_columns_Ret (col_map m) df) as (df1 & Hdf1 & Hcols).
  { by apply Forall_fmap in Hsrc. }
  set (df3 := drop_duplicates
                (drop df1 (filter (λ x, x ∉ times_cols m) (columns df1)))).
  assert (∀ c, c ∈ times_cols m → c ∈ columns df3) as Hall.
  { intros c Hc. unfold df3. simpl. apply drop_columns_elem. split; [|done].
    apply Hcols. right. rewrite Forall_forall in Hkeys. by apply Hkeys. }
  destruct (last (times_cols m)) as [vc|] eqn:Hlast; [|by apply last_None in Hlast].
  destruct (getitem_is_Ret df3 vc) as [col Hcol].
  { apply Hall. by eapply last_Some_elem_of. }
  assert (filter (λ c, c ∉ columns df3) (times_cols m) = []) as Hmissing.
  { apply filter_none. intros c Hc Hn. by apply Hn, Hall. }
  unfold project_table, loc. fold df3.
  eexists. apply bind_Ret. exists df1. split; [done|].
  apply bind_Ret. eexists. split.
  - unfold valid_rows. rewrite Hlast. apply bind_Ret. by exists col.
  - fold df3. rewrite Hmissing. done.
Qed.

Lemma apply_filters_Ret m fr df :
  Forall (λ c, c ∈ columns df) fr.*1 →
  ∃ df', (foldM (apply_filter m) fr df).2 = Ret df' ∧ columns df' = columns df.
Proof.
  revert df. induction fr as [|item fr IH]; intros df Hfr.
  - by exists df.
  - rewrite fmap_cons in Hfr. apply Forall_cons in Hfr as [Hitem Hfr].
    pose proof (apply_filter_rows m df item Hitem) as Hstep.
    destruct (IH {| columns := columns df;
                    values := filter (λ r, row_matches (columns df) r item) (values df) |})
      as (df' & Hdf' & Hcols); [done|].
    exists df'. split; [|done]. rewrite foldM_cons. apply bind_Ret.
    eexists. by rewrite Hstep.
Qed.

Lemma filter_table_returns m src :
  Forall (λ c, c ∈ columns src) (filter_rows m).*1 →
  ("techgroup" ∈ xl_cols m → "techname" ∈ columns src) →
  ∃ df, (filter_table m src).2 = Ret df.
Proof.
  intros Hfr Htech.
  destruct (apply_filters_Ret m (filter_rows m) src Hfr) as (df' & Hdf' & Hcols).
  unfold filter_table, set_techgroup.
  destruct (decide ("techgroup" ∈ xl_cols m)) as [Hin|Hnin].
  - destruct (getitem_is_Ret df' "techname") as [col Hcol].
    { rewrite Hcols. by apply Htech. }
    eexists. apply bind_Ret. exists df'. split; [done|].
    apply bind_Ret. by exists col.
  - exists df'. apply bind_Ret. by exists df'.
Qed.

Lemma process_mapping_returns input st m :
  (∀ src, dict_get input (xl_name m) = Some src → entry_fits m src) →
  ∃ st', (process_mapping input st m).2 = Ret st'.
Proof.
  intros Hfits. destruct st as [result used]. unfold process_mapping.
  destruct (dict_get input (xl_name m)) as [src|]; [|by eexists].
  destruct (Hfits src eq_refl) as (Hfr & Htech & Hsrc & Hne & Hkeys).
  destruct (filter_table_returns m src Hfr Htech) as [df Hdf].
  destruct (decide (Forall (λ c, c ∈ columns df) (xl_cols m))) as [Hcols|Hcols] eqn:E.
  - destruct (project_table_returns m df) as [out Hout]; [|done..|].
    { apply Forall_forall. intros x Hx.
      apply (proj1 (Forall_forall _ _) Hcols x).
      by apply (proj1 (Forall_forall _ _) Hsrc x). }
    destruct (decide (len out = 0)) as [Hlen|Hlen] eqn:E';
      eexists; (apply bind_Ret; exists df; split; [done|]); rewrite E;
      (apply bind_Ret; exists out; split; [done|]); by rewrite E'.
  - eexists. apply bind_Ret. exists df. split; [done|]. by rewrite E.
Qed.

(** X1. When every entry fits its well-formed source table (the filter
    columns exist, [techname] exists when [techgroup] is asked for, the
    sources of [col_map] are among [xl_cols], and [times_cols] is a
    non-empty selection of the keys of [col_map]), [produce_times_tables]
    raises no exception: it returns a store. *)
Theorem produce_times_tables_returns config input :
  (∀ m src, m ∈ times_xl_maps config →
            dict_get input (xl_name m) = Some src →
            frame_wf src ∧ entry_fits m src) →
  ∃ result, (produce_times_tables config input).2 = Ret result.
Proof.
  intros Hwf.
  assert (∀ m src, m ∈ times_xl_maps config →
                   dict_get input (xl_name m) = Some src → entry_fits m src)
    as Hfits by (intros m src Hm Hsrc; by apply (Hwf m src)).
  clear Hwf.
  assert (∀ st, ∃ st', (foldM (process_mapping input) (times_xl_maps config) st).2
                       = Ret st') as Hfold.
  { induction (times_xl_maps config) as [|m ms IH]; intros st; [by eexists|].
    destruct (process_mapping_returns input st m) as [st1 H1].
    { intros src. apply Hfits. by left. }
    destruct (IH (λ m' src Hm', Hfits m' src (list_elem_of_further _ _ _ Hm')) st1)
      as [st' H'].
    exists st'. rewrite foldM_cons. apply bind_Ret. by exists st1. }
  destruct (Hfold ([], ∅)) as [[result used] Hst].
  exists result. unfold produce_times_tables.
  apply bind_Ret. exists tt. split; [done|].
  apply bind_Ret. eexists. split; [done|]. simpl.
  apply bind_Ret. exists tt. split; [by case_decide|done].
Qed.

Lemma produce_times_tables_returns_witness :
  ∃ result,
    (produce_times_tables
       {| times_xl_maps := [ex_mapping "ACT"; ex_mapping_techgroup];
          dd_table_order := [] |}
       [("techs", ex_techs)]).2 = Ret result.
Proof.
  apply produce_times_tables_returns.
  intros m src Hm. assert (src = ex_techs → entry_fits m src) as Hfits.
  { intros ->. apply elem_of_cons in Hm as [->|Hm];
      [|apply list_elem_of_singleton in Hm as ->];
      (split_and!; simpl;
       [repeat constructor| |repeat constructor|by intros [=]|repeat constructor]).
    - intros H. repeat (apply elem_of_cons in H as [[=]|H]). by apply elem_of_nil in H.
    - intros _. right. by left. }
  apply elem_of_cons in Hm as [->|Hm];
    [|apply list_elem_of_singleton in Hm as ->]; simpl; intros [= <-];
    (split; [solve_frame_wf|by apply Hfits]).
Defined.

(** ** What a produced table holds *)

(** X4. No table of the store returned by [produce_times_tables] holds
    the same row twice, whatever duplicates the (well-formed) source
    tables have. *)
Theorem produce_times_tables_distinct_rows config input result name out :
  Forall (λ kv, frame_wf kv.2) input →
  (produce_times_tables config input).2 = Ret result →
  dict_get result name = Some out →
  NoDup (values out).
Proof.
  intros Hinput [_ Hall]%produce_times_tables_items Hget%dict_get_Some.
  rewrite Forall_forall in Hall. rewrite Forall_forall in Hinput.
  destruct (Hall _ Hget) as (m & _ & _ & src & df & Hsrc & Hdf & _ & Hout & _).
  simpl in Hout. eapply project_table_NoDup; [|exact Hout].
  eapply filter_table_wf; [|exact Hdf].
  apply (Hinput (xl_name m, src)). by apply dict_get_Some.
Qed.

Lemma produce_times_tables_distinct_rows_witness :
  NoDup [[Str "EU"; Str "T1"; Str "5"]; [Str "eu"; Str "T1"; Str "5"]].
Proof.
  apply (produce_times_tables_distinct_rows (ex_config "ACT")
           [("techs", ex_techs_twice)]
           [("ACT", {| columns := ["REGION"; "TECH"; "VALUE"];
                       values := [[Str "EU"; Str "T1"; Str "5"];
                                  [Str "eu"; Str "T1"; Str "5"]] |})]
           "ACT" {| columns := ["REGION"; "TECH"; "VALUE"];
                    values := [[Str "EU"; Str "T1"; Str "5"];
                               [Str "eu"; Str "T1"; Str "5"]] |}).
  - repeat constructor; simpl; intros H;
      repeat (apply elem_of_cons in H as [[=]|H]); by apply elem_of_nil in H.
  - vm_compute. reflexivity.
  - reflexivity.
Defined.

Lemma elem_of_select_mask_lookup {A} (mask : list bool) (l : list A) x :
  x ∈ select_mask mask l → ∃ i, l !! i = Some x ∧ mask !! i = Some true.
Proof.
  revert l. induction mask as [|b mask IH]; intros [|y l]; simpl;
    try by intros ?%elem_of_nil.
  destruct b.
  - intros [->|Hx]%elem_of_cons; [by exists 0|].
    destruct (IH _ Hx) as (i & ? & ?). by exists (S i).
  - intros Hx. destruct (IH _ Hx) as (i & ? & ?). by exists (S i).
Qed.

Lemma pick_row_attr (cols_df cols : list string) (r : row) :
  filter (λ c, c ∉ cols_df) cols = [] →
  (λ j, cell_at j r) <$> omap (λ c, col_index c cols_df) cols
    = (λ c, row_attr c cols_df r) <$> cols.
Proof.
  induction cols as [|c cols IH]; [done|].
  rewrite filter_cons. destruct (decide (c ∉ cols_df)) as [|Hc]; [done|].
  intros Hmissing. rewrite fmap_cons. unfold row_attr at 1. simpl.
  destruct (col_index c cols_df) as [j|] eqn:Hj; simpl.
  - f_equal. by apply IH.
  - by apply col_index_None in Hj.
Qed.

(** The rows of [df.loc[i, cols]], read by column label. *)
Lemma loc_values df i cols out :
  (loc df i cols).2 = Ret out →
  values out = (λ r : row, (λ c, row_attr c (columns df) r) <$> cols)
                 <$> select_mask i (values df).
Proof.
  unfold loc. destruct (filter _ cols) eqn:Hmissing; [|done].
  intros [= <-]. simpl. apply list_fmap_ext. intros _ r _.
  by apply pick_row_attr.
Qed.

Lemma cell_at_cell_ne s j (r : row) :
  forallb (cell_ne s) r = true → cell_ne s (cell_at j r) = true.
Proof.
  intros Hr. unfold cell_at. destruct (r !! j) as [c|] eqn:Hj; [|done]. simpl.
  rewrite forallb_forall in Hr. apply Hr, list_elem_of_In.
  by eapply list_elem_of_lookup_2.
Qed.

Lemma cell_ne_true s c : cell_ne s c = true → c ≠ Str s.
Proof. destruct c; simpl; [|done]. intros ?%bool_decide_eq_true. congruence. Qed.

Lemma project_table_valid m df out r :
  (project_table m df).2 = Ret out → r ∈ values out → valid_row r.
Proof.
  unfold project_table.
  intros (df1 & _ & (i & Hi & Hloc)%bind_Ret)%bind_Ret Hr.
  set (df3 := drop_duplicates _) in *.
  unfold valid_rows in Hi.
  destruct (last (times_cols m)) as [vc|] eqn:Hlast; [|done].
  apply bind_Ret in Hi as (col & Hcol & [= <-]).
  apply getitem_Ret in Hcol as (jv & Hjv & ->).
  rewrite (loc_values _ _ _ _ Hloc) in Hr.
  apply list_elem_of_fmap in Hr as (r3 & -> & Hr3).
  apply elem_of_select_mask_lookup in Hr3 as (k & Hk & Hmask).
  apply lookup_zip_with_Some in Hmask as (b12 & b3 & Hb & Hmask & H3).
  apply lookup_zip_with_Some in Hmask as (b1 & b2 & -> & H1 & H2).
  unfold all_ne in H2, H3.
  rewrite !list_lookup_fmap, Hk in H1. rewrite list_lookup_fmap, Hk in H2.
  rewrite list_lookup_fmap, Hk in H3. simpl in *.
  injection H1 as <-. injection H2 as <-. injection H3 as <-.
  symmetry in Hb. apply andb_true_iff in Hb as [[Hna Hnone]%andb_true_iff Hempty].
  split.
  - apply Forall_fmap, Forall_forall. intros c _. unfold compose, row_attr.
    destruct (col_index c _) as [j|]; simpl; [|by split].
    split; apply cell_ne_true; by apply cell_at_cell_ne.
  - rewrite fmap_last, Hlast. simpl. unfold row_attr. rewrite Hjv. simpl.
    destruct (cell_at jv r3) as [v|]; [by exists v|done].
Qed.

(** X5. In every table of the store returned by [produce_times_tables],
    no cell of any row is the string [None] or the empty string, and the
    last cell of every row, the value, is a string and not a missing
    value. *)
Theorem produce_times_tables_valid_rows config input result name out r :
  (produce_times_tables config input).2 = Ret result →
  dict_get result name = Some out →
  r ∈ values out →
  Forall (λ c, c ≠ Str "None" ∧ c ≠ Str "") r ∧ ∃ v, last r = Some (Str v).
Proof.
  intros [_ Hall]%produce_times_tables_items Hget%dict_get_Some Hr.
  rewrite Forall_forall in Hall.
  destruct (Hall _ Hget) as (m & _ & _ & src & df & _ & _ & _ & Hout & _).
  by eapply project_table_valid.
Qed.

Lemma produce_times_tables_valid_rows_witness :
  Forall (λ c, c ≠ Str "None" ∧ c ≠ Str "") [Str "EU"; Str "T1"; Str "5"] ∧
  ∃ v, last [Str "EU"; Str "T1"; Str "5"] = Some (Str v).
Proof.
  apply (produce_times_tables_valid_rows (ex_config "ACT") [("techs", ex_techs)]
           [("ACT", ex_output)] "ACT" ex_output).
  - vm_compute. reflexivity.
  - reflexivity.
  - simpl. by left.
Defined.

(** ** The report of unused tables *)

Lemma bind_eq_inv {A B} (m : Py A) (f : A → Py B) log b :
  m ≫= f = (log, Ret b) →
  ∃ l1 a l2, m = (l1, Ret a) ∧ f a = (l2, Ret b) ∧ log = l1 ++ l2.
Proof.
  destruct m as [l1 [a|e]]; unfold mbind, Py_bind; [|done].
  destruct (f a) as [l2 r] eqn:E. intros [= <- ->]. by exists l1, a, l2.
Qed.

Lemma bind_log {A B} (P : event → Prop) (m : Py A) (f : A → Py B) :
  Forall P m.1 → (∀ a, Forall P (f a).1) → Forall P (m ≫= f).1.
Proof.
  destruct m as [l1 [a|e]]; unfold mbind, Py_bind; simpl; [|done].
  intros H1 Hf. specialize (Hf a). destruct (f a) as [l2 r]. simpl in *.
  by apply Forall_app.
Qed.

Lemma foldM_log {A B} (P : event → Prop) (f : B → A → Py B) l b :
  (∀ b x, Forall P (f b x).1) → Forall P (foldM f l b).1.
Proof.
  intros Hf. revert b. induction l as [|x l IH]; intros b; [constructor|].
  rewrite foldM_cons. by apply bind_log.
Qed.

Lemma getitem_log df c : (getitem df c).1 = [].
Proof. unfold getitem. by destruct (col_index c (columns df)). Qed.

Lemma loc_log df i cols : (loc df i cols).1 = [].
Proof. unfold loc. by destruct (filter _ cols). Qed.

Lemma process_mapping_log input st m :
  Forall (λ e, ¬ is_unused_warning e) (process_mapping input st m).1.
Proof.
  destruct st as [result used]. unfold process_mapping.
  destruct (dict_get input (xl_name m)) as [src|].
  - apply bind_log.
    + unfold filter_table. apply bind_log.
      * apply foldM_log. intros df [fc fv]. unfold apply_filter.
        apply bind_log; [case_decide; repeat constructor; by intros []|].
        intros _. apply bind_log; [by rewrite getitem_log|]. intros col. constructor.
      * intros df. unfold set_techgroup. case_decide; [|constructor].
        apply bind_log; [by rewrite getitem_log|]. intros col. constructor.
    + intros df. case_decide.
      * apply bind_log.
        -- unfold project_table. apply bind_log.
           ++ apply foldM_log. intros df' [tc xc]. unfold copy_column.
              apply bind_log; [by rewrite getitem_log|]. intros col. constructor.
           ++ intros df1. apply bind_log; [|intros i; by rewrite loc_log].
              unfold valid_rows. destruct (last _); [|constructor].
              apply bind_log; [by rewrite getitem_log|]. intros col. constructor.
        -- intros out. case_decide; constructor.
      * repeat constructor. by intros [].
  - repeat constructor. by intros [].
Qed.

Lemma process_mapping_used input result used m result' used' :
  (process_mapping input (result, used) m).2 = Ret (result', used') →
  dict_keys input ∖ used' = dict_keys input ∖ (used ∪ {[ xl_name m ]}).
Proof.
  unfold process_mapping.
  destruct (dict_get input (xl_name m)) as [src|] eqn:Hsrc.
  - intros (df & _ & H)%bind_Ret. case_decide.
    + apply bind_Ret in H as (out & _ & H). case_decide; by injection H as _ <-.
    + by injection H as _ <-.
  - intros [= _ <-]. apply set_eq. intros x.
    rewrite !elem_of_difference, elem_of_union, elem_of_singleton.
    split; [|intros [? Hn]; split; [done|]; intros ?; apply Hn; by left].
    intros [Hx Hn]. split; [done|]. intros [? | ->]; [done|].
    apply dict_get_is_Some in Hx. rewrite Hsrc in Hx. by destruct Hx.
Qed.

Lemma process_mappings_used input ms result used result' used' :
  (foldM (process_mapping input) ms (result, used)).2 = Ret (result', used') →
  dict_keys input ∖ used'
    = dict_keys input ∖ (used ∪ list_to_set (xl_name <$> ms)).
Proof.
  revert result used. induction ms as [|m ms IH]; intros result used.
  - intros [= _ <-]. simpl. by rewrite (right_id_L ∅ (∪)).
  - rewrite foldM_cons. intros ([r1 u1] & H1 & H2)%bind_Ret.
    apply process_mapping_used in H1. apply IH in H2. rewrite H2.
    apply set_eq. intros x.
    assert (x ∈ dict_keys input ∖ u1
            ↔ x ∈ dict_keys input ∖ (used ∪ {[ xl_name m ]})) as Hu1
      by (by rewrite H1).
    rewrite fmap_cons, list_to_set_cons.
    rewrite !elem_of_difference, !elem_of_union, elem_of_singleton in Hu1.
    rewrite !elem_of_difference, !elem_of_union, elem_of_singleton.
    tauto.
Qed.

(** X3. When [produce_times_tables] returns, its log is the line on the
    incoming tables, the warnings of the entries, and then exactly one
    warning on unused tables, naming in sorted order the input tables that
    are the [xl_name] of no entry, or no such warning when every input
    table is named by an entry. *)
Theorem produce_times_tables_unused_report config input log result :
  produce_times_tables config input = (log, Ret result) →
  let unused := dict_keys input ∖ list_to_set (xl_name <$> times_xl_maps config) in
  ∃ warnings,
    Forall (λ e, ¬ is_unused_warning e) warnings ∧
    log = Incoming (length input) (total_rows input) :: warnings ++
          (if decide (unused = ∅) then []
           else [UnusedTables (size unused) (sorted_str (elements unused))]).
Proof.
  unfold produce_times_tables.
  intros (l1 & [] & l2 & [= <-] & H & ->)%bind_eq_inv.
  apply bind_eq_inv in H as (lf & [res used] & l3 & Hfold & H & ->).
  apply bind_eq_inv in H as (l4 & [] & l5 & Hunused & [= <- <-] & ->).
  simpl in *. exists lf. split.
  { pose proof (foldM_log (λ e, ¬ is_unused_warning e) (process_mapping input)
                  (times_xl_maps config) ([], ∅) (process_mapping_log input)) as Hlog.
    by rewrite Hfold in Hlog. }
  assert (dict_keys input ∖ used
          = dict_keys input ∖ list_to_set (xl_name <$> times_xl_maps config)) as Hused.
  { rewrite (process_mappings_used input (times_xl_maps config) [] ∅ res used)
      by (by rewrite Hfold).
    by rewrite (left_id_L ∅ (∪)). }
  rewrite Hused in Hunused. rewrite app_nil_r. do 2 f_equal.
  destruct (decide (_ = ∅)) as [Hempty|Hne].
  - rewrite Hempty, size_empty in Hunused.
    rewrite decide_False in Hunused by lia. by injection Hunused as <-.
  - rewrite decide_True in Hunused; [by injection Hunused as <-|].
    apply Nat.neq_0_lt_0. intros Hsize. apply Hne.
    by apply size_empty_iff, leibniz_equiv in Hsize.
Qed.

Lemma produce_times_tables_unused_report_witness :
  ∃ warnings,
    Forall (λ e, ¬ is_unused_warning e) warnings ∧
    [Incoming 2 4; UnusedTables 1 ["spare"]]
      = Incoming 2 4 :: warnings ++ [UnusedTables 1 ["spare"]].
Proof.
  assert (produce_times_tables (ex_config "ACT")
            [("techs", ex_techs); ("spare", ex_no_region)]
          = ([Incoming 2 4; UnusedTables 1 ["spare"]], Ret [("ACT", ex_output)]))
    as Hrun by (vm_compute; reflexivity).
  destruct (produce_times_tables_unused_report _ _ _ _ Hrun)
    as (warnings & Hw & Hlog).
  exists warnings. split; [done|].
  etrans; [exact Hlog|]. do 2 f_equal.
Defined.

(** ** Entries without a source table *)

Lemma bind_snd_ext {A B} (m : Py A) (f g : A → Py B) :
  (∀ a, (f a).2 = (g a).2) → (m ≫= f).2 = (m ≫= g).2.
Proof.
  intros Hfg. destruct m as [l [a|e]]; unfold mbind, Py_bind; [|done].
  specialize (Hfg a). by destruct (f a), (g a).
Qed.

Lemma bind_snd_Ret {A B} (m : Py A) (f : A → Py B) a :
  m.2 = Ret a → (m ≫= f).2 = (f a).2.
Proof.
  destruct m as [l r]. simpl. intros ->. unfold mbind, Py_bind. by destruct (f a).
Qed.

Lemma process_mappings_present input ms st :
  (foldM (process_mapping input) ms st).2
    = (foldM (process_mapping input)
             (filter (λ m, is_Some (dict_get input (xl_name m))) ms) st).2.
Proof.
  revert st. induction ms as [|m ms IH]; intros st; [done|].
  rewrite foldM_cons.
  destruct (dict_get input (xl_name m)) as [src|] eqn:Hsrc.
  - rewrite filter_cons_True by (by rewrite Hsrc). rewrite foldM_cons.
    by apply bind_snd_ext.
  - rewrite filter_cons_False by (rewrite Hsrc; by intros []).
    rewrite <-IH. apply bind_snd_Ret.
    destruct st as [result used]. unfold process_mapping. by rewrite Hsrc.
Qed.

(** X6. An entry whose source table is absent from the input has no
    effect on the outcome of [produce_times_tables] beyond its warning:
    the run returns the same store, or raises the same exception, as the
    run of the configuration without such entries. *)
Theorem produce_times_tables_absent_sources config input :
  (produce_times_tables config input).2
    = (produce_times_tables
         {| times_xl_maps := filter (λ m, is_Some (dict_get input (xl_name m)))
                                    (times_xl_maps config);
            dd_table_order := dd_table_order config |} input).2.
Proof.
  unfold produce_times_tables.
  apply bind_snd_ext. intros _. cbn [times_xl_maps].
  pose proof (process_mappings_present input (times_xl_maps config) ([], ∅)) as Hfold.
  unfold mbind at 1 3, Py_bind.
  destruct (foldM (process_mapping input) (times_xl_maps config) ([], ∅)) as [l1 r1],
    (foldM (process_mapping input) (filter _ _) ([], ∅)) as [l2 r2].
  simpl in Hfold. subst r2. destruct r1 as [st|e]; [|done].
  by destruct (_ ≫= _).
Qed.

(** ** The totals of the verifier *)

Lemma compare_table_counts data g c a item :
  (compare_table data (g, c, a) item).2
    = Ret (g + len item.2, c + table_correct data item, a + table_additional data item).
Proof.
  destruct item as [name t]. unfold compare_table, table_correct, table_additional.
  simpl. destruct (dict_get data name) as [d|]; [|by rewrite !Nat.add_0_r].
  unfold header_matches.
  destruct (decide (split_dot_head <$> columns t = columns d)) as [Heq|Hne].
  - rewrite decide_False by (by intros []). cbv zeta.
    do 3 (rewrite (bind_snd_Ret _ _ tt) by (by case_decide)). done.
  - rewrite decide_True by done. by rewrite !Nat.add_0_r.
Qed.

Lemma compare_tables_counts data l g c a :
  (foldM (compare_table data) l (g, c, a)).2
    = Ret (g + total_rows l,
           c + sum_list_with (table_correct data) l,
           a + sum_list_with (table_additional data) l).
Proof.
  revert g c a. induction l as [|item l IH]; intros g c a.
  - unfold total_rows. simpl. by rewrite !Nat.add_0_r.
  - rewrite foldM_cons.
    pose proof (compare_table_counts data g c a item) as Hitem.
    erewrite bind_snd_Ret by exact Hitem. rewrite IH.
    destruct item as [name t]. rewrite total_rows_cons. simpl.
    by rewrite !Nat.add_assoc.
Qed.

(** The summary line in closed form. *)
Lemma compare_summary data ground_truth :
  total_rows ground_truth ≠ 0 →
  ∃ log,
    compare data ground_truth
      = (log ++
           [Summary (Z.of_nat (sum_list_with (table_correct data) ground_truth)
                       # Pos.of_nat (total_rows ground_truth))
                    (sum_list_with (table_correct data) ground_truth)
                    (total_rows ground_truth)
                    (additional_table_rows data ground_truth
                       + sum_list_with (table_additional data) ground_truth)],
         Ret tt).
Proof.
  intros Hrows.
  pose proof (compare_tables_counts data (by_len_desc ground_truth) 0 0
                (additional_table_rows data ground_truth)) as Hfold.
  destruct (foldM _ _ _) as [lg r] eqn:E. simpl in Hfold. subst r.
  rewrite (total_rows_perm _ ground_truth) in E by apply sorted_by_perm.
  assert (∀ f : string * DataFrame → nat,
            sum_list_with f (by_len_desc ground_truth) = sum_list_with f ground_truth)
    as Hsum.
  { intros f. unfold by_len_desc. by rewrite sorted_by_perm. }
  rewrite !Hsum in E.
  rewrite (compare_eq _ _ _ _ _ _ E). rewrite decide_False by done.
  eexists. by rewrite app_assoc.
Qed.

Lemma compare_Ret_rows data ground_truth :
  (compare data ground_truth).2 = Ret tt → total_rows ground_truth ≠ 0.
Proof.
  intros Hret Hzero.
  destruct (compare_tables_Ret data (by_len_desc ground_truth) 0 0
              (additional_table_rows data ground_truth)) as (l & c & a & Hfold).
  rewrite (total_rows_perm _ ground_truth), Hzero in Hfold by apply sorted_by_perm.
  rewrite (compare_eq _ _ _ _ _ _ Hfold) in Hret. by rewrite decide_True in Hret.
Qed.

Lemma size_list_to_set_le (l : list row) :
  (size (list_to_set l : gset row) ≤ length l)%nat.
Proof.
  induction l as [|r l IH].
  - by rewrite list_to_set_nil, size_empty.
  - rewrite list_to_set_cons, size_union_alt, size_singleton. cbn [length].
    assert (size (list_to_set l ∖ {[ r ]} : gset row) ≤ size (list_to_set l : gset row))%nat
      by (apply subseteq_size, subseteq_difference_l; reflexivity).
    lia.
Qed.

Lemma table_correct_le data item : (table_correct data item ≤ len item.2)%nat.
Proof.
  unfold table_correct. destruct (dict_get data item.1) as [d|]; [|lia].
  case_decide; [|lia].
  etrans; [|apply size_list_to_set_le].
  apply subseteq_size, intersection_subseteq_l.
Qed.

Lemma sum_list_with_le {A} (f g : A → nat) (l : list A) :
  (∀ x, f x ≤ g x)%nat → (sum_list_with f l ≤ sum_list_with g l)%nat.
Proof.
  intros Hfg. induction l as [|x l IH]; simpl; [done|].
  specialize (Hfg x). lia.
Qed.

Lemma total_rows_sum store : total_rows store = sum_list_with (λ kv, len kv.2) store.
Proof.
  unfold total_rows. induction store as [|[k v] store IH]; [done|].
  rewrite !fmap_cons. simpl. by rewrite <-IH.
Qed.

Lemma ratio_le_one c g :
  (c ≤ g)%nat → g ≠ 0 → (Z.of_nat c # Pos.of_nat g <= 1)%Q.
Proof.
  intros Hle Hg. unfold Qle. simpl.
  rewrite <-(positive_nat_Z (Pos.of_nat g)), Nat2Pos.id by done. lia.
Qed.

(** X7. Whenever [compare] returns, the last line it printed is the
    summary, and the summary never reports more correct rows than the
    ground truth has rows: the ratio is at most 1, however many rows the
    produced tables hold. *)
Theorem compare_ratio_at_most_one data ground_truth log :
  compare data ground_truth = (log, Ret tt) →
  ∃ log' ratio correct additional,
    log = log' ++ [Summary ratio correct (total_rows ground_truth) additional] ∧
    (correct ≤ total_rows ground_truth)%nat ∧
    (ratio <= 1)%Q.
Proof.
  intros Hcmp.
  assert (total_rows ground_truth ≠ 0) as Hrows.
  { apply (compare_Ret_rows data). by rewrite Hcmp. }
  destruct (compare_summary data ground_truth Hrows) as [log' Hsum].
  rewrite Hcmp in Hsum. injection Hsum as ->.
  assert (sum_list_with (table_correct data) ground_truth
          ≤ total_rows ground_truth)%nat as Hle.
  { rewrite total_rows_sum. apply sum_list_with_le. apply table_correct_le. }
  eexists _, _, _, _. split_and!; [done|done|by apply ratio_le_one].
Qed.

Lemma compare_ratio_at_most_one_witness :
  ∃ log' ratio correct additional,
    [GroundTruthInfo 2 4; MissingTables 1 [("techs", 3)]; Summary (1 # 4) 1 4 0]
      = log' ++ [Summary ratio correct 4 additional] ∧
    (correct ≤ 4)%nat ∧ (ratio <= 1)%Q.
Proof.
  apply (compare_ratio_at_most_one [("ACT", ex_output)]
           [("ACT", ex_output); ("techs", ex_techs)]).
  vm_compute. reflexivity.
Defined.

(** ** The order of the tables *)

Lemma dict_get_perm {V} (d d' : list (string * V)) k :
  dict_wf d → d ≡ₚ d' → dict_get d k = dict_get d' k.
Proof.
  intros Hwf Hperm.
  assert (dict_wf d') as Hwf' by (unfold dict_wf; by rewrite <-Hperm).
  destruct (dict_get d k) as [v|] eqn:Hd.
  - symmetry. apply dict_get_elem_of; [done|].
    rewrite <-Hperm. by apply dict_get_Some.
  - destruct (dict_get d' k) as [v'|] eqn:Hd'; [|done].
    apply dict_get_Some in Hd'. rewrite <-Hperm in Hd'.
    apply (dict_get_elem_of _ _ _ Hwf) in Hd'. congruence.
Qed.

Lemma dict_keys_perm {V} (d d' : list (string * V)) :
  d ≡ₚ d' → dict_keys d = dict_keys d'.
Proof. intros Hperm. unfold dict_keys. apply list_to_set_perm_L. by rewrite Hperm. Qed.

Lemma table_counts_ext data data' item :
  (∀ k, dict_get data k = dict_get data' k) →
  table_correct data item = table_correct data' item ∧
  table_additional data item = table_additional data' item.
Proof. intros Hget. unfold table_correct, table_additional. by rewrite Hget. Qed.

Lemma sum_list_with_ext_all {A} (f g : A → nat) (l : list A) :
  (∀ x, f x = g x) → sum_list_with f l = sum_list_with g l.
Proof. intros Hfg. induction l as [|x l IH]; simpl; [done|]. by rewrite Hfg, IH. Qed.

(** X8. The figures of the summary do not depend on the order in which
    the two dicts hold their tables (the ground truth is read in directory
    order): listing the ground-truth tables or the produced tables in
    another order gives the same summary line. *)
Theorem compare_summary_table_order data data' ground_truth ground_truth' :
  dict_wf data → data ≡ₚ data' → ground_truth ≡ₚ ground_truth' →
  total_rows ground_truth ≠ 0 →
  ∃ log log' ratio correct additional,
    compare data ground_truth
      = (log ++ [Summary ratio correct (total_rows ground_truth) additional], Ret tt) ∧
    compare data' ground_truth'
      = (log' ++ [Summary ratio correct (total_rows ground_truth) additional], Ret tt).
Proof.
  intros Hwf Hdata Hgt Hrows.
  destruct (compare_summary data ground_truth Hrows) as [log Hlog].
  destruct (compare_summary data' ground_truth') as [log' Hlog'].
  { by rewrite <-(total_rows_perm _ _ Hgt). }
  exists log, log'. eexists _, _, _. split; [exact Hlog|].
  rewrite Hlog'. do 3 f_equal.
  assert (∀ k, dict_get data k = dict_get data' k) as Hget
    by (intros k; by apply dict_get_perm).
  assert (sum_list_with (table_correct data') ground_truth'
          = sum_list_with (table_correct data) ground_truth) as ->.
  { rewrite <-Hgt. apply sum_list_with_ext_all. intros x.
    symmetry. by apply table_counts_ext. }
  assert (sum_list_with (table_additional data') ground_truth'
          = sum_list_with (table_additional data) ground_truth) as ->.
  { rewrite <-Hgt. apply sum_list_with_ext_all. intros x.
    symmetry. by apply table_counts_ext. }
  assert (additional_table_rows data' ground_truth'
          = additional_table_rows data ground_truth) as ->.
  { unfold additional_table_rows.
    rewrite <-(dict_keys_perm _ _ Hdata), <-(dict_keys_perm _ _ Hgt).
    f_equal. apply list_fmap_ext. intros _ x _. by rewrite Hget. }
  by rewrite <-(total_rows_perm _ _ Hgt).
Qed.

Lemma compare_summary_table_order_witness :
  ∃ log log' ratio correct additional,
    compare [("ACT", ex_output); ("B", ex_no_value)]
            [("ACT", ex_output); ("techs", ex_techs)]
      = (log ++ [Summary ratio correct 4 additional], Ret tt) ∧
    compare [("B", ex_no_value); ("ACT", ex_output)]
            [("techs", ex_techs); ("ACT", ex_output)]
      = (log' ++ [Summary ratio correct 4 additional], Ret tt).
Proof.
  apply (compare_summary_table_order
           [("ACT", ex_output); ("B", ex_no_value)] [("B", ex_no_value); ("ACT", ex_output)]
           [("ACT", ex_output); ("techs", ex_techs)] [("techs", ex_techs); ("ACT", ex_output)]).
  - apply NoDup_cons. split; [|apply NoDup_singleton].
    by intros [=]%list_elem_of_singleton.
  - apply Permutation_swap.
  - apply Permutation_swap.
  - vm_compute. intros [=].
Defined.

(** ** Row order of the produced tables *)

Lemma foldM_ext {A B} (f g : B → A → Py B) l b :
  (∀ b x, x ∈ l → f b x = g b x) → foldM f l b = foldM g l b.
Proof.
  revert b. induction l as [|x l IH]; intros b Hfg; [done|].
  rewrite !foldM_cons, (Hfg b x) by (by left).
  unfold mbind, Py_bind. destruct (g b x) as [lg [b'|e]]; [|done].
  rewrite IH; [done|]. intros b1 y Hy. apply Hfg. by right.
Qed.

Lemma rows_permuted_lookup data data' k :
  rows_permuted data data' →
  option_Forall2 (λ t t', columns t = columns t' ∧ values t ≡ₚ values t')
                 (dict_get data k) (dict_get data' k).
Proof.
  induction 1 as [|[n t] [n' t'] l l' (Hname & Hcols & Hrows) _ IH]; [constructor|].
  simpl in *. subst n'. destruct (decide (n = k)); [by constructor|done].
Qed.

Lemma compare_table_data_permuted data data' st item :
  rows_permuted data data' →
  compare_table data st item = compare_table data' st item.
Proof.
  intros Hperm. destruct st as [[g c] a], item as [name t]. unfold compare_table.
  destruct (rows_permuted_lookup data data' name Hperm) as [d d' [Hcols Hrows]|];
    [|done].
  unfold row_set, len. rewrite Hcols.
  by rewrite (list_to_set_perm_L (C := gset row) _ _ Hrows), (Permutation_length Hrows).
Qed.

(** X9. Permuting the rows of produced tables changes nothing in what
    [compare] prints or returns. *)
Theorem compare_data_row_order data data' ground_truth :
  rows_permuted data data' →
  compare data ground_truth = compare data' ground_truth.
Proof.
  intros Hperm.
  destruct (compare_tables_Ret data (by_len_desc ground_truth) 0 0
              (additional_table_rows data ground_truth)) as (l & c & a & Hfold).
  assert (dict_keys data = dict_keys data') as Hkeys.
  { unfold dict_keys. by rewrite (rows_permuted_keys _ _ Hperm). }
  assert (additional_table_rows data ground_truth
          = additional_table_rows data' ground_truth) as Hadd.
  { unfold additional_table_rows. rewrite <-Hkeys. f_equal.
    apply list_fmap_ext. intros _ x _. by apply rows_permuted_dict_get. }
  assert (compare_preamble data ground_truth = compare_preamble data' ground_truth)
    as Hpre.
  { unfold compare_preamble, with_row_counts. rewrite <-Hkeys.
    do 3 f_equal. case_decide; [|done]. do 2 f_equal.
    apply list_fmap_ext. intros _ x _.
    by rewrite (rows_permuted_dict_get _ _ x Hperm). }
  rewrite (compare_eq _ _ _ _ _ _ Hfold).
  rewrite (foldM_ext _ (compare_table data')), Hadd in Hfold
    by (intros; by apply compare_table_data_permuted).
  rewrite (compare_eq _ _ _ _ _ _ Hfold).
  by rewrite Hpre.
Qed.

Lemma compare_data_row_order_witness :
  compare [("techs", ex_techs)] [("techs", ex_techs)]
    = compare [("techs", ex_techs_reversed)] [("techs", ex_techs)].
Proof.
  apply compare_data_row_order. constructor; [|constructor].
  split_and!; [reflexivity..|]. simpl.
  rewrite <-(reverse_Permutation (values ex_techs)). reflexivity.
Defined.

(** ** Duplicated rows *)

Lemma size_list_to_set_NoDup (l : list row) :
  size (list_to_set l : gset row) = length l ↔ NoDup l.
Proof.
  split; [|apply size_list_to_set].
  induction l as [|r l IH]; [constructor|].
  rewrite list_to_set_cons, size_union_alt, size_singleton. cbn [length]. intros Hsize.
  pose proof (size_list_to_set_le l) as Hle.
  destruct (decide (r ∈ l)) as [Hr|Hr].
  - exfalso.
    assert (size (list_to_set l ∖ {[ r ]} : gset row)
            = size (list_to_set l : gset row) - size ({[ r ]} : gset row))%nat as Hd.
    { apply size_difference. apply singleton_subseteq_l. by apply elem_of_list_to_set. }
    rewrite size_singleton in Hd.
    assert (size (list_to_set l : gset row) ≠ 0).
    { apply size_non_empty_iff. intros Hempty.
      apply (not_elem_of_empty (C := gset row) r). rewrite <-Hempty.
      by apply elem_of_list_to_set. }
    lia.
  - constructor; [done|]. apply IH.
    assert (size (list_to_set l ∖ {[ r ]} : gset row) ≤ size (list_to_set l : gset row))%nat
      by (apply subseteq_size, subseteq_difference_l; reflexivity).
    lia.
Qed.

Lemma sum_list_with_eq_Forall {A} (f g : A → nat) (l : list A) :
  (∀ x, f x ≤ g x)%nat →
  sum_list_with f l = sum_list_with g l ↔ Forall (λ x, f x = g x) l.
Proof.
  intros Hfg. induction l as [|x l IH]; simpl.
  - split; [constructor|done].
  - rewrite Forall_cons, <-IH.
    pose proof (Hfg x). pose proof (sum_list_with_le f g l Hfg). lia.
Qed.

Lemma sum_list_with_ext_elem {A} (f g : A → nat) (l : list A) :
  (∀ x, x ∈ l → f x = g x) → sum_list_with f l = sum_list_with g l.
Proof.
  induction l as [|x l IH]; intros Hfg; simpl; [done|].
  rewrite (Hfg x) by (by left). rewrite IH; [done|]. intros y Hy. apply Hfg. by right.
Qed.

(** X10. A store with dot-free column names compared with itself counts
    as correct the distinct rows of each table, with no additional row:
    the summary reports every ground-truth row as correct exactly when no
    table holds the same row twice. *)
Theorem compare_self_distinct_rows data :
  dict_wf data →
  Forall (λ kv, undotted (columns kv.2)) data →
  total_rows data ≠ 0 →
  ∃ log ratio correct,
    compare data data = (log ++ [Summary ratio correct (total_rows data) 0], Ret tt) ∧
    correct = sum_list_with (λ kv, size (row_set kv.2)) data ∧
    (correct = total_rows data ↔ Forall (λ kv, NoDup (values kv.2)) data).
Proof.
  intros Hwf Hcols Hrows.
  destruct (compare_summary data data Hrows) as [log Hlog].
  rewrite Forall_forall in Hcols.
  assert (∀ kv, kv ∈ data →
            table_correct data kv = size (row_set kv.2) ∧ table_additional data kv = 0)
    as Hself.
  { intros [name t] Hin. unfold table_correct, table_additional. simpl.
    rewrite (dict_get_elem_of _ _ _ Hwf Hin).
    rewrite decide_True by (apply undotted_fmap; by apply (Hcols _ Hin)).
    rewrite gset_intersection_diag, gset_difference_diag, size_empty.
    split; [done|by case_decide]. }
  rewrite (sum_list_with_ext_elem (table_correct data) (λ kv, size (row_set kv.2)))
    in Hlog by (intros kv Hin; by apply Hself).
  rewrite (sum_list_with_ext_elem (table_additional data) (λ _, 0)) in Hlog
    by (intros kv Hin; by apply Hself).
  assert (sum_list_with (λ _ : string * DataFrame, 0) data = 0) as Hzero
    by (clear; induction data; simpl; lia).
  assert (additional_table_rows data data = 0) as Hadd.
  { unfold additional_table_rows. by rewrite gset_difference_diag, elements_empty. }
  rewrite Hzero, Hadd in Hlog.
  eexists log, _, _. split_and!; [exact Hlog|done|].
  rewrite total_rows_sum.
  rewrite sum_list_with_eq_Forall by (intros kv; apply size_list_to_set_le).
  apply Forall_iff. intros kv. apply size_list_to_set_NoDup.
Qed.

Lemma compare_self_distinct_rows_witness :
  ∃ log ratio correct,
    compare [("techs", ex_techs_twice)] [("techs", ex_techs_twice)]
      = (log ++ [Summary ratio correct 3 0], Ret tt) ∧
    correct = 2 ∧
    (correct = 3 ↔ Forall (λ kv : string * DataFrame, NoDup (values kv.2))
                          [("techs", ex_techs_twice)]).
Proof.
  destruct (compare_self_distinct_rows [("techs", ex_techs_twice)])
    as (log & ratio & correct & Hcmp & Hcorrect & Hiff).
  - apply NoDup_singleton.
  - repeat constructor.
  - vm_compute. intros [=].
  - exists log, ratio, correct. split_and!; [exact Hcmp| |exact Hiff].
    rewrite Hcorrect. vm_compute. reflexivity.
Defined.

(** ** Which tables the DD serializer touches *)

Lemma routed_tables_in_file config fname tablenames t :
  (fname, tablenames) ∈ tables_in_file config → t ∈ tablenames → routed config t.
Proof.
  unfold tables_in_file, routed. intros Hin Ht.
  apply elem_of_cons in Hin as [Heq|Hin].
  - injection Heq as -> ->. apply list_elem_of_singleton in Ht as ->. by left.
  - apply list_elem_of_singleton in Hin. injection Hin as -> ->.
    apply list_elem_of_filter in Ht as [_ ?]. by right.
Qed.

Lemma tables_in_file_routed config t :
  routed config t →
  ∃ fname tablenames, (fname, tablenames) ∈ tables_in_file config ∧ t ∈ tablenames.
Proof.
  unfold tables_in_file. intros Hrouted.
  destruct (decide (t = "ALL_TS")) as [->|Hne].
  - exists "ts.dd", ["ALL_TS"]. split; by left.
  - exists "output.dd", (filter (λ t, t ≠ "ALL_TS") (dd_table_order config)).
    split; [right; by left|]. apply list_elem_of_filter. by destruct Hrouted.
Qed.

Lemma write_table_ext tables tables' sets fname t :
  dict_get tables t = dict_get tables' t →
  write_table tables sets fname tt t = write_table tables' sets fname tt t.
Proof. intros Hget. unfold write_table. by rewrite Hget. Qed.

Lemma write_file_ext tables tables' sets fname tablenames :
  (∀ t, t ∈ tablenames → dict_get tables t = dict_get tables' t) →
  write_file tables sets tt (fname, tablenames)
    = write_file tables' sets tt (fname, tablenames).
Proof.
  intros Hget. unfold write_file.
  assert (filter (λ t, is_Some (dict_get tables' t)) tablenames
          = filter (λ t, is_Some (dict_get tables t)) tablenames) as ->.
  { clear fname. induction tablenames as [|t l IH]; [done|].
    rewrite !filter_cons, (Hget t) by (by left).
    rewrite IH; [done|]. intros t' Ht'. apply Hget. by right. }
  rewrite (foldM_ext _ (write_table tables' sets fname)); [done|].
  intros [] t [_ Ht]%list_elem_of_filter. by apply write_table_ext, Hget.
Qed.

(** X11. [write_dd_files] reads only the tables it routes to a file,
    [ALL_TS] and the names of [dd_table_order]: two stores that agree on
    these tables give the same files and the same outcome, whatever other
    tables they hold. *)
Theorem write_dd_files_routed_only tables tables' config :
  (∀ t, routed config t → dict_get tables t = dict_get tables' t) →
  write_dd_files tables config = write_dd_files tables' config.
Proof.
  intros Hget. unfold write_dd_files.
  apply foldM_ext. intros [] [fname tablenames] Hin.
  apply write_file_ext. intros t Ht. apply Hget.
  by eapply routed_tables_in_file.
Qed.

Lemma write_dd_files_routed_only_witness :
  write_dd_files [("ACT", ex_output)] (ex_config "ACT")
    = write_dd_files [("SPARE", ex_no_value); ("ACT", ex_output)] (ex_config "ACT").
Proof.
  apply write_dd_files_routed_only.
  intros t [->|Ht]; [reflexivity|].
  simpl in Ht. apply list_elem_of_singleton in Ht as ->. reflexivity.
Defined.

Lemma foldM_unit_Ret {A} (f : unit → A → Py unit) l :
  (∀ y, y ∈ l → (f tt y).2 = Ret tt) → (foldM f l tt).2 = Ret tt.
Proof.
  induction l as [|y l IH]; intros Hall; [done|].
  rewrite foldM_cons. apply bind_Ret. exists tt. split; [apply Hall; by left|].
  apply IH. intros z Hz. apply Hall. by right.
Qed.

(** X12. [write_dd_files] returns normally exactly when no routed table
    of the store is a parameter table without a [VALUE] column; set
    tables never make it fail. *)
Theorem write_dd_files_returns_iff tables config :
  (write_dd_files tables config).2 = Ret tt ↔
  ∀ t, routed config t → ¬ bad_parameter tables (set_tables config) t.
Proof.
  unfold write_dd_files. split.
  - intros Hret t Hrouted Hbad.
    destruct (tables_in_file_routed config t Hrouted)
      as (fname & tablenames & Hin & Ht).
    destruct (foldM_unit_raise (write_file tables (set_tables config))
                (no_value_error tables (set_tables config))
                (tables_in_file config) (fname, tablenames))
      as (e & He & _); [done| |by eapply write_file_raises|congruence].
    intros item _. apply write_file_outcome.
  - intros Hgood. apply foldM_unit_Ret. intros [fname tablenames] Hin.
    unfold write_file. apply bind_Ret. exists tt. split; [done|].
    apply foldM_unit_Ret. intros t [Hsome Ht]%list_elem_of_filter.
    destruct (write_table_outcome tables (set_tables config) fname t Hsome)
      as [[Hbad _]|[_ Hret]]; [|done].
    exfalso. eapply Hgood; [|exact Hbad]. by eapply routed_tables_in_file.
Qed.

(** ** Row order and the DD files *)

Lemma sorted_str_insert_Sorted x l :
  Sorted String.le l → Sorted String.le (sorted_insert String.leb x l).
Proof.
  induction 1 as [|y l Hl IH Hhd]; simpl.
  - repeat constructor.
  - destruct (String.leb x y) eqn:Hxy.
    + constructor; [by constructor|]. constructor. unfold String.le. by rewrite Hxy.
    + constructor; [done|].
      assert (String.le y x) as Hyx.
      { destruct (total String.le x y) as [Hle|Hle]; [|done].
        unfold String.le in Hle. by rewrite Hxy in Hle. }
      destruct Hhd as [|z l Hyz]; simpl; [by constructor|].
      destruct (String.leb x z); by constructor.
Qed.

Lemma sorted_str_Sorted l : Sorted String.le (sorted_str l).
Proof.
  unfold sorted_str, sorted_by. induction l as [|x l IH]; simpl; [constructor|].
  by apply sorted_str_insert_Sorted.
Qed.

(** [sorted] forgets the order of its argument. *)
Lemma sorted_str_perm l l' : l ≡ₚ l' → sorted_str l = sorted_str l'.
Proof.
  intros Hperm. apply (Sorted_unique String.le); [apply sorted_str_Sorted..|].
  unfold sorted_str. by rewrite !sorted_by_perm.
Qed.

Lemma convert_set_permuted df df' :
  columns df = columns df' → values df ≡ₚ values df' →
  convert_set df ≡ₚ convert_set df'.
Proof. intros Hcols Hrows. unfold convert_set. rewrite Hcols. by apply fmap_Permutation. Qed.

Lemma bind_mret_l {A B} (a : A) (f : A → Py B) : mret a ≫= f = f a.
Proof. unfold mbind, Py_bind, mret, Py_ret. by destruct (f a). Qed.

Lemma write_table_permuted tables tables' sets fname t :
  rows_permuted tables tables' →
  write_table tables sets fname tt t = write_table tables' sets fname tt t.
Proof.
  intros Hperm. unfold write_table.
  destruct (rows_permuted_lookup tables tables' t Hperm) as [df df' [Hcols Hrows]|];
    [|done].
  cbn [from_option]. rewrite !bind_mret_l. unfold convert_parameter. rewrite Hcols.
  unfold mbind, Py_bind, mret, Py_ret, print, raise.
  destruct (decide (t ∈ sets)).
  - by rewrite (sorted_str_perm _ _ (convert_set_permuted df df' Hcols Hrows)).
  - destruct (decide ("VALUE" ∉ columns df')); [done|].
    erewrite sorted_str_perm; [done|]. by apply fmap_Permutation.
Qed.

(** X13. The files written by [write_dd_files] do not depend on the
    order of the rows in the tables: the lines of each table are sorted
    before they are written, so stores that differ by permutations of
    rows give the same output. *)
Theorem write_dd_files_row_order tables tables' config :
  rows_permuted tables tables' →
  write_dd_files tables config = write_dd_files tables' config.
Proof.
  intros Hperm. unfold write_dd_files.
  apply foldM_ext. intros [] [fname tablenames] _. unfold write_file.
  assert (filter (λ t, is_Some (dict_get tables' t)) tablenames
          = filter (λ t, is_Some (dict_get tables t)) tablenames) as ->.
  { apply list_filter_iff. intros t.
    destruct (rows_permuted_lookup tables tables' t Hperm) as [df df' _|];
      [split; by eexists|split; by intros []]. }
  rewrite (foldM_ext _ (write_table tables' (set_tables config) fname)); [done|].
  intros [] t _. by apply write_table_permuted.
Qed.

Lemma write_dd_files_row_order_witness :
  write_dd_files [("ACT", ex_techs)] (ex_config "ACT")
    = write_dd_files [("ACT", ex_techs_reversed)] (ex_config "ACT").
Proof.
  apply write_dd_files_row_order. constructor; [|constructor].
  split_and!; [reflexivity..|]. simpl.
  rewrite <-(reverse_Permutation (values ex_techs)). reflexivity.
Defined.

(** ** What the projection computes *)

Lemma zip_with_fmap_same {A B C D} (g : B → C → D) (f1 : A → B) (f2 : A → C) (l : list A) :
  zip_with g (f1 <$> l) (f2 <$> l) = (λ x, g (f1 x) (f2 x)) <$> l.
Proof. induction l as [|x l IH]; [done|]. rewrite !fmap_cons. simpl. by rewrite IH. Qed.

Lemma col_index_app_l c cols more i :
  col_index c cols = Some i → col_index c (cols ++ more) = Some i.
Proof.
  unfold col_index. destruct (list_find _ cols) as [[j x]|] eqn:E; [|done].
  intros [= <-]. by erewrite list_find_app_l.
Qed.

Lemma col_index_elem_of c cols : c ∈ cols → ∃ i, col_index c cols = Some i.
Proof.
  intros Hc. destruct (col_index c cols) as [i|] eqn:E; [by exists i|].
  by apply col_index_None in E.
Qed.

Lemma row_attr_cell_at c cols i (r : row) :
  col_index c cols = Some i → row_attr c cols r = cell_at i r.
Proof. intros Hi. unfold row_attr. by rewrite Hi. Qed.

Lemma copy_column_with_copies df done k x :
  frame_wf df →
  k ∉ columns df → k ∉ done.*1 → x ∈ columns df →
  copy_column (with_copies df done) (k, x)
    = ([], Ret (with_copies df (done ++ [(k, x)]))).
Proof.
  intros [_ Hrows] Hk Hk' Hx. unfold copy_column.
  destruct (col_index_elem_of x (columns df) Hx) as [i Hi].
  unfold getitem. simpl. rewrite (col_index_app_l _ _ _ _ Hi).
  rewrite bind_mret_l. unfold setitem. simpl.
  assert (col_index k (columns df ++ done.*1) = None) as ->.
  { apply col_index_None. rewrite elem_of_app. by intros [?|?]. }
  unfold mret, Py_ret, with_copies. do 3 f_equal.
  - by rewrite fmap_app, app_assoc.
  - rewrite <-list_fmap_compose, zip_with_fmap_same.
    apply list_fmap_ext. intros _ r Hr%list_elem_of_lookup_2. simpl.
    rewrite fmap_app, app_assoc. simpl. do 2 f_equal.
    rewrite (row_attr_cell_at _ _ _ _ Hi). unfold cell_at.
    rewrite lookup_app_l; [done|].
    rewrite Forall_forall in Hrows. rewrite (Hrows _ Hr).
    by apply col_index_Some in Hi as [_ ?].
Qed.

Lemma copy_columns_with_copies df done rest :
  frame_wf df →
  NoDup (done ++ rest).*1 →
  Forall (λ k, k ∉ columns df) rest.*1 →
  Forall (λ x, x ∈ columns df) rest.*2 →
  foldM copy_column rest (with_copies df done)
    = ([], Ret (with_copies df (done ++ rest))).
Proof.
  intros Hwf. revert done. induction rest as [|[k x] rest IH]; intros done Hnd Hk Hx.
  - by rewrite app_nil_r.
  - rewrite !fmap_cons in *. apply Forall_cons in Hk as [Hk Hks].
    apply Forall_cons in Hx as [Hx Hxs]. simpl in Hk, Hx.
    rewrite foldM_cons.
    eapply (bind_eq _ _ [] _ []).
    + apply copy_column_with_copies; [done..| |done].
      rewrite fmap_app, fmap_cons in Hnd. simpl in Hnd.
      apply NoDup_app in Hnd as (_ & Hnd & _). intros Hin.
      apply (Hnd k Hin). by left.
    + replace (done ++ (k, x) :: rest) with ((done ++ [(k, x)]) ++ rest)
        by (by rewrite <-app_assoc).
      apply IH; [|done..]. by rewrite <-app_assoc.
Qed.

Lemma with_copies_nil df : frame_wf df → with_copies df [] = df.
Proof.
  intros _. destruct df as [cols rows]. unfold with_copies. simpl.
  rewrite app_nil_r. f_equal.
  rewrite <-(list_fmap_id rows) at 2. apply list_fmap_ext. intros _ r _.
  simpl. by rewrite app_nil_r.
Qed.

Lemma select_mask_app {A} (m1 m2 : list bool) (l1 l2 : list A) :
  length m1 = length l1 →
  select_mask (m1 ++ m2) (l1 ++ l2) = select_mask m1 l1 ++ select_mask m2 l2.
Proof.
  revert l1. induction m1 as [|b m1 IH]; intros [|x l1] [=]; simpl.
  - done.
  - destruct b; simpl; by rewrite IH.
Qed.

Lemma select_mask_none {A B} (l : list B) (k : list A) :
  select_mask ((λ _, false) <$> l) k = [].
Proof.
  revert k. induction l as [|x l IH]; intros [|y k]; simpl; by try apply IH.
Qed.

Lemma select_mask_fmap_filter {A B} (P : A → Prop) `{∀ x, Decision (P x)}
    (g : A → B) (l : list A) :
  select_mask ((λ x, bool_decide (P x)) <$> l) (g <$> l) = g <$> filter P l.
Proof.
  induction l as [|x l IH]; [done|].
  rewrite !fmap_cons. simpl. rewrite IH.
  case_bool_decide; [by rewrite filter_cons_True|by rewrite filter_cons_False].
Qed.

Lemma drop_mask_with_copies df (cm : list (string * string)) (keep : list string) :
  Forall (λ c, c ∉ keep) (columns df) →
  (λ c, bool_decide
          (c ∉ filter (λ x, x ∉ keep) (columns df ++ cm.*1))) <$> (columns df ++ cm.*1)
  = ((λ _, false) <$> columns df) ++ ((λ kx, bool_decide (kx.1 ∈ keep)) <$> cm).
Proof.
  intros Hfresh. rewrite Forall_forall in Hfresh. rewrite fmap_app. f_equal.
  - apply list_fmap_ext. intros _ c Hc%list_elem_of_lookup_2.
    apply bool_decide_eq_false. intros Hn. apply Hn.
    apply list_elem_of_filter. split; [by apply Hfresh|]. apply elem_of_app. by left.
  - rewrite <-list_fmap_compose. apply list_fmap_ext.
    intros _ [k x] Hkx%list_elem_of_lookup_2. simpl.
    apply bool_decide_ext. rewrite list_elem_of_filter. split.
    + intros Hn. destruct (decide (k ∈ keep)) as [|Hk]; [done|]. destruct Hn.
      split; [done|]. apply elem_of_app. right.
      apply list_elem_of_fmap. by exists (k, x).
    + intros Hk [Hn _]. done.
Qed.

Lemma drop_with_copies df (cm : list (string * string)) (keep : list string) :
  frame_wf df →
  Forall (λ c, c ∉ keep) (columns df) →
  drop (with_copies df cm)
       (filter (λ x, x ∉ keep) (columns (with_copies df cm)))
    = {| columns := (kept_pairs keep cm).*1;
         values := copied_cells df (kept_pairs keep cm) <$> values df |}.
Proof.
  intros [_ Hrows] Hfresh. unfold drop, with_copies. simpl.
  rewrite (drop_mask_with_copies df cm keep Hfresh). f_equal.
  - rewrite select_mask_app by (by rewrite length_fmap).
    rewrite select_mask_none. simpl.
    by rewrite (select_mask_fmap_filter (λ kx : string * string, kx.1 ∈ keep) fst).
  - rewrite <-list_fmap_compose. apply list_fmap_ext.
    intros _ r Hr%list_elem_of_lookup_2. simpl.
    rewrite Forall_forall in Hrows.
    rewrite select_mask_app by (rewrite length_fmap; symmetry; by apply Hrows).
    rewrite select_mask_none. simpl.
    by rewrite (select_mask_fmap_filter (λ kx : string * string, kx.1 ∈ keep)).
Qed.

Lemma select_mask_bool {A} (b : A → bool) (l : list A) :
  select_mask (b <$> l) l = filter (λ x, b x) l.
Proof.
  induction l as [|x l IH]; [done|].
  rewrite fmap_cons. simpl. rewrite IH. destruct (b x) eqn:Hb.
  - rewrite filter_cons_True; [done|]. by rewrite Hb.
  - rewrite filter_cons_False; [done|]. rewrite Hb. simpl. tauto.
Qed.

Lemma filter_fmap {A B} (P : B → Prop) `{∀ y, Decision (P y)} (f : A → B) (l : list A) :
  filter P (f <$> l) = f <$> filter (λ x, P (f x)) l.
Proof.
  induction l as [|x l IH]; [done|].
  rewrite fmap_cons. destruct (decide (P (f x))).
  - rewrite !filter_cons_True by done. by rewrite fmap_cons, IH.
  - by rewrite !filter_cons_False.
Qed.

Lemma filter_ext_elem {A} (P Q : A → Prop) `{∀ x, Decision (P x)} `{∀ x, Decision (Q x)}
    (l : list A) :
  (∀ x, x ∈ l → P x ↔ Q x) → filter P l = filter Q l.
Proof.
  induction l as [|x l IH]; intros HPQ; [done|].
  rewrite !filter_cons. rewrite IH by (intros y Hy; apply HPQ; by right).
  apply decide_ext, HPQ. by left.
Qed.

Lemma col_index_lookup (cols : list string) j c :
  NoDup cols → cols !! j = Some c → col_index c cols = Some j.
Proof.
  intros Hnd Hj. destruct (col_index c cols) as [j'|] eqn:E.
  - apply col_index_Some in E as [E _]. f_equal. by eapply NoDup_lookup.
  - apply col_index_None in E. destruct E. by eapply list_elem_of_lookup_2.
Qed.

(** Picking every column of the header, in any order, keeps the cells
    that pass a test on cells. *)
Lemma forallb_pick_columns (f : cell → bool) header cols (r : row) :
  f NaN = true →
  NoDup header → Forall (λ c, c ∈ cols) header → length r = length header →
  forallb f (pick_columns header cols r) = forallb f r.
Proof.
  intros HNaN Hnd Hall Hlen. apply eq_true_iff_eq.
  rewrite !forallb_forall. split.
  - intros Hpick x Hx%list_elem_of_In.
    apply list_elem_of_lookup in Hx as [j Hj].
    destruct (lookup_lt_is_Some_2 header j) as [c Hc].
    { rewrite <-Hlen. by eapply lookup_lt_Some. }
    apply Hpick, list_elem_of_In. unfold pick_columns.
    apply list_elem_of_fmap. exists c. split.
    + rewrite (row_attr_cell_at _ _ j) by (by apply col_index_lookup).
      unfold cell_at. by rewrite Hj.
    + rewrite Forall_forall in Hall. apply Hall. by eapply list_elem_of_lookup_2.
  - intros Hr x Hx%list_elem_of_In. unfold pick_columns in Hx.
    apply list_elem_of_fmap in Hx as (c & -> & _). unfold row_attr.
    destruct (col_index c header) as [j|]; simpl; [|done].
    unfold cell_at. destruct (r !! j) as [y|] eqn:Hj; simpl; [|done].
    apply Hr, list_elem_of_In. by eapply list_elem_of_lookup_2.
Qed.

(** Lines 257-262 on a frame that holds exactly the output columns: the
    valid rows, with the columns in the order of [times_cols]. *)
Lemma select_valid_rows m (df : DataFrame) :
  frame_wf df →
  times_cols m ≠ [] →
  Forall (λ c, c ∈ columns df) (times_cols m) →
  Forall (λ c, c ∈ times_cols m) (columns df) →
  (i ← valid_rows m df; loc df i (times_cols m))
    = ([], Ret {| columns := times_cols m;
                  values := filter (λ r, row_valid r)
                              (pick_columns (columns df) (times_cols m) <$> values df) |}).
Proof.
  intros [Hnd Hrows] Hne Hin Hall.
  destruct (last (times_cols m)) as [vc|] eqn:Hlast; [|by apply last_None in Hlast].
  assert (vc ∈ columns df) as Hvc.
  { rewrite Forall_forall in Hin. by apply Hin, last_Some_elem_of. }
  destruct (col_index_elem_of vc (columns df) Hvc) as [jv Hjv].
  unfold valid_rows. rewrite Hlast. unfold getitem. rewrite Hjv.
  rewrite !bind_mret_l. unfold all_ne.
  rewrite <-list_fmap_compose, !zip_with_fmap_same.
  unfold loc.
  assert (filter (λ c, c ∉ columns df) (times_cols m) = []) as ->.
  { apply filter_none. intros c Hc Hn. apply Hn.
    rewrite Forall_forall in Hin. by apply Hin. }
  unfold mret, Py_ret. do 3 f_equal.
  rewrite select_mask_bool, filter_fmap.
  rewrite Forall_forall in Hrows.
  rewrite (filter_ext_elem _ (λ r : row, row_valid (pick_columns (columns df) (times_cols m) r))).
  - apply list_fmap_ext. intros _ r _. apply pick_row_attr.
    apply filter_none. intros c Hc Hn. apply Hn.
    rewrite Forall_forall in Hin. by apply Hin.
  - intros r Hr. simpl. unfold row_valid.
    rewrite !forallb_pick_columns by (done || by apply Hrows).
    unfold pick_columns at 1. rewrite fmap_last, Hlast. simpl.
    by rewrite (row_attr_cell_at _ _ _ _ Hjv).
Qed.

Lemma drop_duplicates_rows_fmap (f : row → row) (l : list row) :
  (∀ x y, x ∈ l → y ∈ l → f x = f y → x = y) →
  drop_duplicates_rows (f <$> l) = f <$> drop_duplicates_rows l.
Proof.
  induction l as [|r l IH]; intros Hinj; [done|].
  rewrite fmap_cons. simpl. f_equal.
  rewrite IH by (intros x y Hx Hy; apply Hinj; by right).
  rewrite filter_fmap. f_equal. apply filter_ext_elem.
  intros x Hx%elem_of_drop_duplicates_rows. split.
  - intros Hne ->. done.
  - intros Hne Heq. apply Hne. apply Hinj; [by right|by left|done].
Qed.

Lemma kept_pairs_NoDup keep (cm : list (string * string)) :
  NoDup cm.*1 → NoDup (kept_pairs keep cm).*1.
Proof.
  unfold kept_pairs. induction cm as [|[k x] cm IH]; [done|].
  rewrite fmap_cons. intros [Hk Hnd]%NoDup_cons. rewrite filter_cons.
  case_decide; [|by apply IH]. rewrite fmap_cons. apply NoDup_cons. split; [|by apply IH].
  intros (kx & Heq & [_ Hin]%list_elem_of_filter)%list_elem_of_fmap.
  apply Hk. apply list_elem_of_fmap. by exists kx.
Qed.

Lemma pick_copied_cells m df (r : row) :
  NoDup (col_map m).*1 →
  Forall (λ c, c ∈ (col_map m).*1) (times_cols m) →
  pick_columns (kept_pairs (times_cols m) (col_map m)).*1 (times_cols m)
               (copied_cells df (kept_pairs (times_cols m) (col_map m)) r)
    = projected_row m (columns df) r.
Proof.
  intros Hnd Hin. unfold pick_columns, projected_row.
  apply list_fmap_ext. intros _ c Hc%list_elem_of_lookup_2.
  rewrite Forall_forall in Hin.
  pose proof (Hin c Hc) as Hk.
  apply list_elem_of_fmap in Hk as ([k x] & -> & Hkx). simpl in *.
  rewrite (dict_get_elem_of _ _ _ Hnd Hkx). simpl.
  set (pairs := kept_pairs (times_cols m) (col_map m)).
  assert ((k, x) ∈ pairs) as Hkept by (by apply list_elem_of_filter).
  apply list_elem_of_lookup in Hkept as [j Hj].
  rewrite (row_attr_cell_at _ _ j).
  - unfold cell_at, copied_cells. by rewrite list_lookup_fmap, Hj.
  - apply col_index_lookup; [by apply kept_pairs_NoDup|].
    by rewrite list_lookup_fmap, Hj.
Qed.

Lemma pick_columns_injective (header cols : list string) (r r' : row) :
  NoDup header →
  Forall (λ c, c ∈ cols) header → Forall (λ c, c ∈ header) cols →
  length r = length header → length r' = length header →
  pick_columns header cols r = pick_columns header cols r' → r = r'.
Proof.
  intros Hnd Hall Hin Hr Hr' Heq.
  assert (filter (λ c, c ∉ header) cols = []) as Hmissing.
  { apply filter_none. intros c Hc Hn. apply Hn.
    rewrite Forall_forall in Hin. by apply Hin. }
  unfold pick_columns in Heq. rewrite <-!pick_row_attr in Heq by done.
  by eapply pick_columns_inj.
Qed.

(** The projection in closed form. *)
Lemma project_table_projected m df :
  frame_wf df →
  NoDup (col_map m).*1 →
  Forall (λ k, k ∉ columns df) (col_map m).*1 →
  Forall (λ x, x ∈ columns df) (col_map m).*2 →
  times_cols m ≠ [] →
  Forall (λ c, c ∈ (col_map m).*1) (times_cols m) →
  project_table m df
    = ([], Ret {| columns := times_cols m;
                  values := filter (λ r, row_valid r)
                              (drop_duplicates_rows
                                 (projected_row m (columns df) <$> values df)) |}).
Proof.
  intros Hwf Hnd Hfresh Hsrc Hne Hin. unfold project_table.
  set (pairs := kept_pairs (times_cols m) (col_map m)).
  assert (Forall (λ c, c ∉ times_cols m) (columns df)) as Hdisj.
  { apply Forall_forall. intros c Hc Hc'.
    rewrite Forall_forall in Hin. rewrite Forall_forall in Hfresh.
    by apply (Hfresh c (Hin c Hc')). }
  pose proof (copy_columns_with_copies df [] (col_map m) Hwf Hnd Hfresh Hsrc) as Hcopy.
  rewrite (with_copies_nil df Hwf) in Hcopy. simpl in Hcopy.
  eapply (bind_eq _ _ [] _ []); [exact Hcopy|].
  rewrite (drop_with_copies df (col_map m) (times_cols m) Hwf Hdisj). fold pairs.
  set (df2 := {| columns := pairs.*1; values := copied_cells df pairs <$> values df |}).
  assert (frame_wf df2) as Hwf2.
  { split; simpl; [by apply kept_pairs_NoDup|].
    apply Forall_fmap, Forall_forall. intros r _. simpl.
    unfold copied_cells. by rewrite !length_fmap. }
  assert (Forall (λ c, c ∈ pairs.*1) (times_cols m)) as Hin2.
  { apply Forall_forall. intros c Hc. rewrite Forall_forall in Hin.
    pose proof (Hin c Hc) as ([k x] & -> & Hkx)%list_elem_of_fmap.
    apply list_elem_of_fmap. exists (k, x). split; [done|].
    by apply list_elem_of_filter. }
  assert (Forall (λ c, c ∈ times_cols m) pairs.*1) as Hall2.
  { apply Forall_fmap, Forall_forall. by intros kx [? _]%list_elem_of_filter. }
  rewrite (select_valid_rows m (drop_duplicates df2))
    by (done || by apply drop_duplicates_wf).
  simpl. do 4 f_equal.
  rewrite <-drop_duplicates_rows_fmap.
  - f_equal. rewrite <-list_fmap_compose. apply list_fmap_ext. intros _ r _.
    simpl. by apply pick_copied_cells.
  - destruct Hwf2 as [Hnd2 Hrows2]. rewrite Forall_forall in Hrows2.
    intros x y Hx Hy. apply pick_columns_injective; (done || by apply Hrows2).
Qed.

(** X14. When the keys of [col_map] are new column names, its sources
    are columns of the table and [times_cols] is a non-empty selection of
    its keys, the projection of lines 250-262 prints nothing and returns
    the table with columns [times_cols] whose rows are the rows of the
    source, each read through [col_map], without repetitions (the first
    occurrence is kept) and without the rows that fail the validity
    rule. *)
Theorem project_table_rows m df :
  frame_wf df →
  NoDup (col_map m).*1 →
  Forall (λ k, k ∉ columns df) (col_map m).*1 →
  Forall (λ x, x ∈ columns df) (col_map m).*2 →
  times_cols m ≠ [] →
  Forall (λ c, c ∈ (col_map m).*1) (times_cols m) →
  project_table m df
    = ([], Ret {| columns := times_cols m;
                  values := filter (λ r, row_valid r)
                              (drop_duplicates_rows
                                 (projected_row m (columns df) <$> values df)) |}).
Proof. apply project_table_projected. Qed.

Lemma project_table_rows_witness :
  project_table ex_mapping_narrow ex_techs_mixed
    = ([], Ret {| columns := ["TECH"; "VALUE"];
                  values := [[Str "T1"; Str "5"]; [Str "T4"; Str "7"]] |}).
Proof.
  apply (project_table_rows ex_mapping_narrow ex_techs_mixed).
  - split; simpl.
    + repeat constructor; simpl; intros H;
        repeat (apply elem_of_cons in H as [[=]|H]); by apply elem_of_nil in H.
    + by repeat constructor.
  - simpl. repeat constructor; simpl; intros H;
      repeat (apply elem_of_cons in H as [[=]|H]); by apply elem_of_nil in H.
  - simpl. repeat constructor; simpl; intros H;
      repeat (apply elem_of_cons in H as [[=]|H]); by apply elem_of_nil in H.
  - simpl. repeat constructor.
  - done.
  - simpl. repeat constructor.
Defined.

(** ** What a stored table is computed from *)

Lemma stored_by_mapped_table input m src out :
  dict_get input (xl_name m) = Some src →
  plain_entry m src →
  stored_by input m out → out = mapped_table m src.
Proof.
  intros Hsrc (Hwf & (Hfr & _ & Hsources & Hne & Hkeys) & Htg & Hnd & Hfresh & _)
    (src' & df & Hsrc' & Hdf & Hcols & Hout & _).
  rewrite Hsrc in Hsrc'. injection Hsrc' as <-.
  unfold filter_table in Hdf. apply bind_Ret in Hdf as (df1 & Hfold & Hdf).
  rewrite (apply_filters_filter m (filter_rows m) src) in Hfold
    by (apply Forall_forall; intros [c v] Hcv; rewrite Forall_forall in Hfr;
        apply Hfr, list_elem_of_fmap; by exists (c, v)).
  injection Hfold as <-.
  unfold set_techgroup in Hdf. rewrite decide_False in Hdf by done.
  injection Hdf as <-.
  rewrite project_table_projected in Hout; simpl in *.
  - by injection Hout as <-.
  - destruct Hwf as [Hcolsnd Hrows]. split; simpl; [done|].
    apply Forall_forall. intros r [_ Hr]%list_elem_of_filter.
    rewrite Forall_forall in Hrows. by apply Hrows.
  - done.
  - done.
  - apply Forall_forall. intros x Hx.
    rewrite Forall_forall in Hsources. rewrite Forall_forall in Hcols.
    by apply Hcols, Hsources.
  - done.
  - done.
Qed.

(** X15. When every entry with a source table is a plain one (the source
    is well formed, the entry fits it and does not ask for the technology
    group, the keys of [col_map] are distinct names that the source
    does not use, and the filter values and the cells under the filter
    columns are ASCII strings), every table of the returned store is the
    [mapped_table] of an entry of that name and of its source table:
    the rows that pass the filters, read through [col_map], without
    repetitions and without the invalid rows. *)
Theorem produce_times_tables_rows config input result name out :
  (∀ m src, m ∈ times_xl_maps config →
            dict_get input (xl_name m) = Some src → plain_entry m src) →
  (produce_times_tables config input).2 = Ret result →
  dict_get result name = Some out →
  ∃ m src, m ∈ times_xl_maps config ∧ times_name m = name ∧
           dict_get input (xl_name m) = Some src ∧
           out = mapped_table m src.
Proof.
  intros Hplain [_ Hitems]%produce_times_tables_items Hout%dict_get_Some.
  rewrite Forall_forall in Hitems.
  destruct (Hitems _ Hout) as (m & Hm & Hname & Hstored). simpl in *.
  pose proof Hstored as (src & _ & Hsrc & _).
  exists m, src. repeat split; [done..|].
  eapply stored_by_mapped_table; [done| |done]. by apply Hplain.
Qed.

Lemma produce_times_tables_rows_witness :
  ∃ m src, m ∈ times_xl_maps (ex_config "ACT") ∧ times_name m = "ACT" ∧
           dict_get [("techs", ex_techs)] (xl_name m) = Some src ∧
           ex_output = mapped_table m src.
Proof.
  apply (produce_times_tables_rows (ex_config "ACT") [("techs", ex_techs)]
           [("ACT", ex_output)] "ACT" ex_output).
  - intros m src ->%list_elem_of_singleton [= <-].
    assert (∀ (x : string) l, Forall (λ y, x ≠ y) l → x ∉ l) as Hnotin.
    { intros x l Hl Hx. rewrite Forall_forall in Hl. by apply (Hl x). }
    repeat split; simpl.
    + repeat constructor; by apply Hnotin; repeat constructor.
    + repeat constructor.
    + repeat constructor.
    + intros ?. repeat constructor.
    + repeat constructor.
    + done.
    + repeat constructor.
    + by apply Hnotin; repeat constructor.
    + repeat constructor; by apply Hnotin; repeat constructor.
    + repeat constructor; by apply Hnotin; repeat constructor.
    + repeat constructor.
  - vm_compute. reflexivity.
  - reflexivity.
Defined.

(** ** Entries that share a name *)





(** ** strip_filename_prefix *)

Lemma prefix_app (p rest : string) : String.prefix p (p +:+ rest) = true.
Proof.
  induction p as [|a p IH]; simpl; [by destruct rest|].
  by destruct (Ascii.ascii_dec a a).
Qed.

Lemma prefix_inv (p s : string) :
  String.prefix p s = true → ∃ rest, s = p +:+ rest.
Proof.
  revert s. induction p as [|a p IH]; intros [|b s]; simpl; try done.
  - intros _. by exists "".
  - intros _. by exists (String b s).
  - destruct (Ascii.ascii_dec a b) as [->|]; [|done].
    intros [rest ->]%IH. by exists rest.
Qed.

Lemma slice_from_app (p rest : string) (n : nat) :
  slice_from (String.length p + n) (p +:+ rest) = slice_from n rest.
Proof. induction p as [|a p IH]; simpl; [done|by rewrite IH]. Qed.

(** X17. When the file name of an embedded table starts with the prefix,
    the prefix and the one character after it, whatever it is, are cut
    off; a file name equal to the prefix becomes the empty string. All
    other fields are kept. *)
Theorem strip_filename_prefix_cut t prefix rest :
  filename t = prefix +:+ rest →
  strip_filename_prefix (Embedded t) prefix
    = Embedded (set_filename t match rest with
                               | EmptyString => EmptyString
                               | String _ name => name
                               end).
Proof.
  intros Hname. unfold strip_filename_prefix.
  rewrite Hname, prefix_app, slice_from_app. by destruct rest.
Qed.

Lemma strip_filename_prefix_cut_witness :
  strip_filename_prefix (Embedded (ex_raw_table "/data/in/model.xlsx")) "/data/in"
    = Embedded (ex_raw_table "model.xlsx") ∧
  strip_filename_prefix (Embedded (ex_raw_table "/data/in")) "/data/in"
    = Embedded (ex_raw_table "").
Proof.
  split.
  - apply (strip_filename_prefix_cut (ex_raw_table "/data/in/model.xlsx")
             "/data/in" "/model.xlsx"). reflexivity.
  - apply (strip_filename_prefix_cut (ex_raw_table "/data/in") "/data/in" "").
    reflexivity.
Defined.

(** X18. A table that is not an embedded table, or whose file name does
    not start with the prefix, is returned as it is. *)
Theorem strip_filename_prefix_unchanged table prefix :
  (∀ t rest, table = Embedded t → filename t ≠ prefix +:+ rest) →
  strip_filename_prefix table prefix = table.
Proof.
  intros Hno. destruct table as [t|item]; [|done]. simpl.
  destruct (String.prefix prefix (filename t)) eqn:Hp; [|done].
  apply prefix_inv in Hp as [rest Hrest]. by destruct (Hno t rest).
Qed.

Lemma strip_filename_prefix_unchanged_witness :
  strip_filename_prefix (Embedded (ex_raw_table "/data/in/model.xlsx")) "/other"
    = Embedded (ex_raw_table "/data/in/model.xlsx").
Proof.
  apply (strip_filename_prefix_unchanged
           (Embedded (ex_raw_table "/data/in/model.xlsx")) "/other").
  intros t rest [= <-]. simpl. intros [=].
Defined.

(** ** read_csv_tables *)

Section read_csv_tables_facts.
Variable read_csv : string → string → Py DataFrame.

Lemma read_csv_files_get input_dir files (result result' : TableStore) key :
  (foldM (λ result filename,
            df ← read_csv input_dir filename;
            mret (dict_set result (split_dot_head filename) df))
         files result).2 = Ret result' →
  ∀ df, dict_get result' key = Some df ↔
    (dict_get result key = Some df ∧
     Forall (λ f, split_dot_head f ≠ key) files) ∨
    ∃ before f after,
      files = before ++ f :: after ∧ split_dot_head f = key ∧
      (read_csv input_dir f).2 = Ret df ∧
      Forall (λ f', split_dot_head f' ≠ key) after.
Proof.
  revert result. induction files as [|f files IH]; intros result.
  - simpl. intros [= <-] df. split.
    + intros ?. left. by split.
    + intros [[? _]|(before & ? & ? & Heq & _)]; [done|].
      by destruct before.
  - rewrite foldM_cons. intros (r1 & Hstep & Hrest)%bind_Ret df.
    apply bind_Ret in Hstep as (df1 & Hread & [= <-]).
    rewrite (IH _ Hrest df), dict_get_set. split.
    + intros [[Hget Hafter]|(before & f' & after & -> & ?)].
      * destruct (decide (split_dot_head f = key)) as [Hkey|Hkey].
        -- injection Hget as <-. right. by exists [], f, files.
        -- left. split; [done|]. by constructor.
      * right. by exists (f :: before), f', after.
    + intros [[Hget [Hkey Hafter]%Forall_cons]|(before & f' & after & Heq & Hkey & Hread' & Hafter)].
      * left. by rewrite decide_False.
      * destruct before as [|f0 before]; simpl in Heq; injection Heq as -> ->.
        -- left. rewrite decide_True by done. split; [|done].
           rewrite Hread in Hread'. by injection Hread' as ->.
        -- right. by exists before, f', after.
Qed.

(** X19. When [read_csv_tables] returns, the store holds under a key the
    frame read from the last file of the listing whose name, cut at its
    first dot, is that key; files of every extension are read, and of
    two files with the same name up to the first dot only the later one
    is kept. *)
Theorem read_csv_tables_last_file listdir input_dir result key df :
  (read_csv_tables read_csv listdir input_dir).2 = Ret result →
  dict_get result key = Some df ↔
  ∃ before f after,
    listdir = before ++ f :: after ∧ split_dot_head f = key ∧
    (read_csv input_dir f).2 = Ret df ∧
    Forall (λ f', split_dot_head f' ≠ key) after.
Proof.
  intros Hrun. unfold read_csv_tables in Hrun.
  rewrite (read_csv_files_get _ _ _ _ key Hrun df). split.
  - by intros [[? _]|?].
  - intros ?. by right.
Qed.

End read_csv_tables_facts.

(** ** write_csv_tables *)

Lemma endswith_app (s1 s2 suffix : string) :
  endswith s2 suffix = true → endswith (s1 +:+ s2) suffix = true.
Proof.
  intros H. induction s1 as [|a s1 IH]; simpl; [done|].
  rewrite IH. by rewrite orb_true_r.
Qed.

Lemma string_length_app (s1 s2 : string) :
  String.length (s1 +:+ s2) = (String.length s1 + String.length s2)%nat.
Proof. induction s1 as [|a s1 IH]; simpl; [done|by rewrite IH]. Qed.

Lemma app_suffix_inj (s x y : string) : x +:+ s = y +:+ s → x = y.
Proof.
  revert y. induction x as [|a x IH]; intros [|b y]; simpl; [done|..].
  - intros H%(f_equal String.length). simpl in H.
    rewrite !string_length_app in H. simpl in H. lia.
  - intros H%(f_equal String.length). simpl in H.
    rewrite !string_length_app in H. simpl in H. lia.
  - intros [= -> H]. by rewrite (IH y H).
Qed.

Lemma split_dot_head_app (s1 s2 : string) :
  split_dot_head s1 = s1 →
  split_dot_head (s1 +:+ s2) = s1 +:+ split_dot_head s2.
Proof.
  induction s1 as [|a s1 IH]; simpl; [done|].
  destruct (decide (a = "."%char)); [done|].
  intros [= H]. by rewrite IH.
Qed.

Lemma written_files_write_csv_tables listdir tables output_dir :
  written_files (write_csv_tables listdir tables output_dir)
    = (λ t, t +:+ "_output.csv") <$> tables.*1.
Proof.
  unfold written_files, write_csv_tables.
  rewrite !omap_app. simpl.
  assert (∀ l : list string,
            omap (λ op, match op with ToCsv _ fname _ => Some fname | _ => None end)
                 (Remove output_dir <$> l) = []) as ->.
  { intros l. induction l as [|x l IH]; [done|]. by csimpl. }
  simpl. induction tables as [|[t df] tables IH]; [done|].
  csimpl. by rewrite IH.
Qed.

(** X20. [write_csv_tables] removes only listed files whose name ends in
    [.csv], and every file it writes has such a name: a later run on the
    same directory removes the files of an earlier run that are still
    listed, whatever tables it is given. *)
Theorem write_csv_tables_removes listdir tables output_dir :
  (∀ dir item, Remove dir item ∈ write_csv_tables listdir tables output_dir →
     dir = output_dir ∧ item ∈ listdir ∧ endswith item ".csv" = true) ∧
  (∀ fname df listdir' tables',
     ToCsv output_dir fname df ∈ write_csv_tables listdir tables output_dir →
     fname ∈ listdir' →
     Remove output_dir fname ∈ write_csv_tables listdir' tables' output_dir).
Proof.
  unfold write_csv_tables. split.
  - intros dir item [Hin|[Hin|Hin]%elem_of_app]%elem_of_cons; [done|..].
    + apply list_elem_of_fmap in Hin as (x & [= -> ->] & [? ?]%list_elem_of_filter).
      done.
    + by apply list_elem_of_fmap in Hin as (? & ? & _).
  - intros fname df listdir' tables'
      [Hin|[Hin|Hin]%elem_of_app]%elem_of_cons Hlisted; [done|..].
    + by apply list_elem_of_fmap in Hin as (? & ? & _).
    + apply list_elem_of_fmap in Hin as ([t df'] & [= -> ->] & _). simpl in *.
      apply elem_of_cons. right. apply elem_of_app. left.
      apply list_elem_of_fmap. eexists. split; [done|].
      apply list_elem_of_filter. split; [|done].
      by apply endswith_app.
Qed.

Lemma write_csv_tables_removes_witness :
  Remove "out" "ACT_output.csv"
    ∈ write_csv_tables ["notes.txt"; "ACT_output.csv"] [] "out".
Proof.
  destruct (write_csv_tables_removes [] [("ACT", ex_output)] "out") as [_ Hlater].
  apply (Hlater "ACT_output.csv" ex_output).
  - vm_compute. repeat constructor.
  - repeat constructor.
Defined.

(** ** Reading back what was written *)

Lemma split_dot_head_output (t : string) :
  split_dot_head t = t →
  split_dot_head (t +:+ "_output.csv") = t +:+ "_output".
Proof.
  intros Ht. rewrite split_dot_head_app by done. f_equal.
Qed.

(** X21. A directory that holds exactly the files [write_csv_tables]
    wrote for a store whose table names have no dot is read back by
    [read_csv_tables], when it returns, as a store with one table per
    written table, but under the table name followed by [_output]: no
    table keeps its name. *)
Theorem read_written_tables read_csv listdir0 tables dir listdir result :
  dict_wf tables →
  Forall (λ t, split_dot_head t = t) tables.*1 →
  listdir ≡ₚ written_files (write_csv_tables listdir0 tables dir) →
  (read_csv_tables read_csv listdir dir).2 = Ret result →
  ∀ key df,
    dict_get result key = Some df ↔
    ∃ t, t ∈ tables.*1 ∧ key = t +:+ "_output" ∧
         (read_csv dir (t +:+ "_output.csv")).2 = Ret df.
Proof.
  intros Hwf Hplain Hlist Hrun key df.
  rewrite written_files_write_csv_tables in Hlist.
  rewrite Forall_forall in Hplain.
  unfold read_csv_tables in Hrun.
  rewrite (read_csv_files_get _ _ _ _ _ key Hrun df). split.
  - intros [[? _]|(before & f & after & Heq & Hkey & Hread & _)]; [done|].
    assert (f ∈ listdir) as Hf
      by (rewrite Heq; apply elem_of_app; right; by left).
    rewrite Hlist in Hf. apply list_elem_of_fmap in Hf as (t & -> & Ht).
    exists t. split; [done|].
    rewrite split_dot_head_output in Hkey by by apply Hplain. done.
  - intros (t & Ht & -> & Hread). right.
    assert (t +:+ "_output.csv" ∈ listdir) as Hf.
    { rewrite Hlist. apply list_elem_of_fmap. by exists t. }
    apply list_elem_of_split in Hf as (before & after & Heq).
    exists before, (t +:+ "_output.csv"), after.
    split; [done|]. split; [by apply split_dot_head_output, Hplain|].
    split; [done|].
    assert (NoDup listdir) as Hnd.
    { rewrite Hlist. apply NoDup_fmap_2; [|done].
      intros x y. apply app_suffix_inj. }
    rewrite Heq in Hnd. apply NoDup_app in Hnd as (_ & _ & Hnd).
    apply NoDup_cons in Hnd as [Hnotin _].
    apply Forall_forall. intros f' Hf' Hkey.
    assert (f' ∈ listdir) as Hin
      by (rewrite Heq; apply elem_of_app; right; by right).
    rewrite Hlist in Hin. apply list_elem_of_fmap in Hin as (t' & -> & Ht').
    rewrite split_dot_head_output in Hkey by by apply Hplain.
    apply app_suffix_inj in Hkey as ->. done.
Qed.

Lemma read_csv_tables_last_file_witness :
  dict_get [("a", {| columns := ["a.txt"]; values := [] |});
            ("b", {| columns := ["b.csv"]; values := [] |})] "a"
    = Some {| columns := ["a.txt"]; values := [] |} ↔
  ∃ before f after,
    ["a.csv"; "b.csv"; "a.txt"] = before ++ f :: after ∧
    split_dot_head f = "a" ∧
    (ex_read_csv "gt" f).2 = Ret {| columns := ["a.txt"]; values := [] |} ∧
    Forall (λ f', split_dot_head f' ≠ "a") after.
Proof.
  apply (read_csv_tables_last_file ex_read_csv ["a.csv"; "b.csv"; "a.txt"] "gt").
  reflexivity.
Defined.

Lemma read_written_tables_witness :
  dict_get [("ACT_output", {| columns := ["ACT_output.csv"]; values := [] |})]
           "ACT_output"
    = Some {| columns := ["ACT_output.csv"]; values := [] |} ↔
  ∃ t, t ∈ [("ACT", ex_output)].*1 ∧ "ACT_output" = t +:+ "_output" ∧
       (ex_read_csv "out" (t +:+ "_output.csv")).2
         = Ret {| columns := ["ACT_output.csv"]; values := [] |}.
Proof.
  apply (read_written_tables ex_read_csv ["old.csv"] [("ACT", ex_output)] "out"
           ["ACT_output.csv"]).
  - repeat constructor. by intros ?%elem_of_nil.
  - repeat constructor.
  - reflexivity.
  - reflexivity.
Defined.
